(** * Gradual rollout of traffic: a model of
      [pkg/reconciler/route/traffic/rollout.go]

    The development embeds the rollout state of a route and the functions
    that move traffic from older revisions to the newest one, and states
    the properties of the specification over that embedding.

    Conventions of the embedding.
    - Go's [int] is modelled by [Z].  The quantities are percentage
      points, at most 100 on a valid rollout, and Unix timestamps; the
      overflow of the 64-bit [int] is outside of the model.
    - A slice is a [list]; an index expression that Go evaluates out of
      range makes the enclosing function panic, which the model renders
      as [None].
    - A function that mutates its receiver or its argument in place
      returns the updated value.  [stepConfig] also updates the
      revisions of [prev] in place; no caller reads them afterwards, and
      the model keeps the returned configuration only.
    - [float64] is the binary64 format with rounding to the nearest
      even, bit for bit.
    - The iteration over a Go map comes in an unspecified order: [Step]
      is parameterised by the order in which the tags are visited. *)

From Stdlib Require Import String ZArith Zpower List Bool Lia SpecFloat.
From Stdlib Require Import Permutation Sorted OrderedTypeEx.
Import ListNotations.
Open Scope Z_scope.

(** ** Data model *)

Module Rev.

(** [RevisionRollout]: a revision and the share of the route's traffic
    it receives. *)
Record RevisionRollout : Type := mk
  { RevisionName : string;
    Percent : Z }.

(** The zero value of the struct. *)
Definition zero : RevisionRollout := mk EmptyString 0.

(** [r.Percent = p] *)
Definition setPercent (r : RevisionRollout) (p : Z) : RevisionRollout :=
  mk (RevisionName r) p.

End Rev.

Abbreviation RevisionRollout := Rev.RevisionRollout.

(** [ConfigurationRollout]: the rollout state of a config+tag pair. *)
Record ConfigurationRollout : Type := mkConfigurationRollout
  { ConfigurationName : string;
    Tag : string;
    Percent : Z;
    Revisions : list RevisionRollout;
    Deadline : Z;
    StartTime : Z;
    NextStepTime : Z;
    StepDuration : Z;
    StepSize : Z }.

(** [Rollout]: the configurations of a route. *)
Record Rollout : Type := mkRollout
  { Configurations : list ConfigurationRollout }.

Definition setRevisions (cr : ConfigurationRollout)
    (revs : list RevisionRollout) : ConfigurationRollout :=
  mkConfigurationRollout (ConfigurationName cr) (Tag cr) (Percent cr) revs
    (Deadline cr) (StartTime cr) (NextStepTime cr) (StepDuration cr)
    (StepSize cr).

(** [cr.Percent = p] *)
Definition setPercent (cr : ConfigurationRollout) (p : Z)
    : ConfigurationRollout :=
  mkConfigurationRollout (ConfigurationName cr) (Tag cr) p (Revisions cr)
    (Deadline cr) (StartTime cr) (NextStepTime cr) (StepDuration cr)
    (StepSize cr).

Definition setNextStepTime (cr : ConfigurationRollout) (t : Z)
    : ConfigurationRollout :=
  mkConfigurationRollout (ConfigurationName cr) (Tag cr) (Percent cr)
    (Revisions cr) (Deadline cr) (StartTime cr) t (StepDuration cr)
    (StepSize cr).

(** ** Slices of revisions *)

(** [revs[i]] for an index in range. *)
Definition at_ (revs : list RevisionRollout) (i : nat) : RevisionRollout :=
  nth i revs Rev.zero.

(** [revs[i] = r] *)
Fixpoint setAt (revs : list RevisionRollout) (i : nat) (r : RevisionRollout)
    : list RevisionRollout :=
  match revs, i with
  | [], _ => []
  | _ :: tl, O => r :: tl
  | x :: tl, S j => x :: setAt tl j r
  end.

(** [revs[i].Percent = p] *)
Definition setPercentAt (revs : list RevisionRollout) (i : nat) (p : Z)
    : list RevisionRollout :=
  setAt revs i (Rev.setPercent (at_ revs i) p).

(** The sum of the percentages of a list of revisions, as [Validate]
    accumulates it in [tot]. *)
Definition total (revs : list RevisionRollout) : Z :=
  fold_left (fun tot r => tot + Rev.Percent r) revs 0.


(** [Validate]: no configuration is over 100% and the revisions of each
    add up to its percentage. *)
Fixpoint ValidateConfigs (cs : list ConfigurationRollout) : bool :=
  match cs with
  | [] => true
  | c :: tl =>
      if Percent c >? 100 then false
      else if negb (total (Revisions c) =? Percent c) then false
      else ValidateConfigs tl
  end.

Definition Validate (cur : Rollout) : bool :=
  ValidateConfigs (Configurations cur).

(** ** [adjustPercentage] *)

(** The loop of the decreasing case: [i] walks from the oldest revision
    while [diff] is left; a revision larger than [diff] absorbs it and
    ends the loop.  [fuel] bounds the iterations by the revisions left. *)
Fixpoint shrinkLoop (fuel : nat) (revs : list RevisionRollout) (diff : Z)
    (i : nat) : list RevisionRollout * nat :=
  match fuel with
  | O => (revs, i)
  | S fuel' =>
      if (diff >? 0) && (i <? length revs)%nat then
        let p := Rev.Percent (at_ revs i) in
        if p >? diff then (setPercentAt revs i (p - diff), i)
        else shrinkLoop fuel' revs (diff - p) (S i)
      else (revs, i)
  end.

(** [adjustPercentage(goal, cr)]; [None] is the panic of
    [cr.Revisions[len(cr.Revisions)-1]] on an empty slice. *)
Definition adjustPercentage (goal : Z) (cr : ConfigurationRollout)
    : option ConfigurationRollout :=
  let diff := goal - Percent cr in
  if goal =? 0 then Some (setRevisions cr [])
  else if diff >? 0 then
    match length (Revisions cr) with
    | O => None
    | S last =>
        let revs := Revisions cr in
        Some (setRevisions cr
                (setPercentAt revs last (Rev.Percent (at_ revs last) + diff)))
    end
  else if diff <? 0 then
    let '(revs, i) :=
      shrinkLoop (length (Revisions cr)) (Revisions cr) (- diff) 0 in
    Some (setRevisions cr (skipn i revs))
  else Some cr.

(** ** [stepRevisions] *)

(** The draining loop.  [k] is [readPos + 1], so that [readPos >= 0] is
    [k <> 0]; [writePos] moves down with [readPos]. *)
Fixpoint drainLoop (k : nat) (revs : list RevisionRollout) (remaining : Z)
    (writePos : nat) : list RevisionRollout * nat :=
  match k with
  | O => (revs, writePos)
  | S readPos =>
      if remaining >? 0 then
        let p := Rev.Percent (at_ revs readPos) in
        if p >? remaining then
          (setPercentAt revs readPos (p - remaining), writePos)
        else drainLoop readPos revs (remaining - p) (pred writePos)
      else (revs, writePos)
  end.

Definition stepRevisions (goal : ConfigurationRollout) (nowTS : Z)
    : ConfigurationRollout :=
  if (nowTS <? NextStepTime goal) || (length (Revisions goal) <? 2)%nat
  then goal
  else
    let revLen := length (Revisions goal) in
    let '(revs, writePos) :=
      drainLoop (revLen - 1) (Revisions goal) (StepSize goal) (revLen - 1) in
    let revs := setAt revs writePos (at_ revs (revLen - 1)) in
    let revs :=
      setPercentAt revs writePos
        (Rev.Percent (at_ revs writePos) + StepSize goal) in
    let revs :=
      if Rev.Percent (at_ revs writePos) >? Percent goal
      then setPercentAt revs writePos (Percent goal)
      else revs in
    setNextStepTime (setRevisions goal (firstn (writePos + 1) revs))
      (nowTS + StepDuration goal).

(** ** [stepConfig] *)

(** The backward search for a revision with traffic; [k] is [i + 1]. *)
Fixpoint stealLoop (k : nat) (revs : list RevisionRollout)
    : list RevisionRollout :=
  match k with
  | O => revs
  | S i =>
      if Rev.Percent (at_ revs i) >? 0
      then setPercentAt revs i (Rev.Percent (at_ revs i) - 1)
      else stealLoop i revs
  end.

(** The copy of the non 0% revisions. *)
Definition nonZero (revs : list RevisionRollout) : list RevisionRollout :=
  filter (fun r => negb (Rev.Percent r =? 0)) revs.

(** [stepConfig(goal, prev, nowTS)].  The result is the returned
    configuration; [None] is a panic of one of the index expressions
    [goal.Revisions[0]] and [prev.Revisions[pc-1]]. *)
Definition stepConfig (goal prev : ConfigurationRollout) (nowTS : Z)
    : option ConfigurationRollout :=
  let pc := length (Revisions prev) in
  let ret :=
    mkConfigurationRollout (ConfigurationName goal) (Tag goal) (Percent goal)
      (Revisions goal) 0 0 0 0 0 in
  match
    (if (0 <? length (Revisions prev))%nat
     then adjustPercentage (Percent goal) prev
     else Some prev)
  with
  | None => None
  | Some prev =>
      if (length (Revisions prev) =? 0)%nat then Some ret
      else
        match nth_error (Revisions goal) 0,
              nth_error (Revisions prev) (pc - 1) with
        | Some goal0, Some newest =>
            if String.eqb (Rev.RevisionName goal0) (Rev.RevisionName newest)
            then
              Some (stepRevisions
                      (mkConfigurationRollout (ConfigurationName goal)
                         (Tag goal) (Percent goal) (Revisions prev)
                         (Deadline prev) (StartTime prev) (NextStepTime prev)
                         (StepDuration prev) 0)
                      nowTS)
            else
              let revs :=
                stealLoop (length (Revisions prev)) (Revisions prev) in
              let out := nonZero revs in
              let goalRev := Rev.setPercent goal0 1 in
              Some (mkConfigurationRollout (ConfigurationName goal)
                      (Tag goal) (Percent goal) (out ++ [goalRev])
                      0 nowTS 0 0 0)
        | _, _ => None
        end
  end.

(** ** [Step] *)

(** [currConfigs[t]] and [prevConfigs[t]]: the configurations carrying
    the tag [t], in the order of the slice. *)
Definition byTag (t : string) (cs : list ConfigurationRollout)
    : list ConfigurationRollout :=
  filter (fun c => String.eqb (Tag c) t) cs.

(** The second result of the map lookup [prevConfigs[t]]. *)
Definition hasTag (t : string) (cs : list ConfigurationRollout) : bool :=
  existsb (fun c => String.eqb (Tag c) t) cs.

(** The intersect loop over the configurations of one tag.  The first
    list is [ccfgs[i:]], the second one [pcfgs[j:]]; the result is what
    the loop appends to [ret], [None] when [stepConfig] panics. *)
Fixpoint mergeConfigs (nowTS : Z) (ccfgs : list ConfigurationRollout)
    : list ConfigurationRollout -> option (list ConfigurationRollout) :=
  match ccfgs with
  | [] => fun _ => Some []
  | c :: ctl =>
      fix onPrev (pcfgs : list ConfigurationRollout)
          : option (list ConfigurationRollout) :=
        match pcfgs with
        | [] => option_map (cons c) (mergeConfigs nowTS ctl [])
        | p :: ptl =>
            if String.eqb (ConfigurationName c) (ConfigurationName p) then
              if Percent c >? 1 then
                match stepConfig c p nowTS with
                | Some r => option_map (cons r) (mergeConfigs nowTS ctl ptl)
                | None => None
                end
              else if Percent c =? 1 then
                option_map (cons c) (mergeConfigs nowTS ctl ptl)
              else mergeConfigs nowTS ctl ptl
            else if String.ltb (ConfigurationName c) (ConfigurationName p)
            then
              if negb (Percent c =? 0)
              then option_map (cons c) (mergeConfigs nowTS ctl pcfgs)
              else mergeConfigs nowTS ctl pcfgs
            else onPrev ptl
        end
  end.

(** The body of the loop over the tags of [cur], for one tag. *)
Definition stepTag (nowTS : Z) (cur prev : list ConfigurationRollout)
    (t : string) : option (list ConfigurationRollout) :=
  let ccfgs := byTag t cur in
  if hasTag t prev then mergeConfigs nowTS ccfgs (byTag t prev)
  else
    match ccfgs with
    | c0 :: _ => Some [c0]
    | [] => None
    end.

(** The loop over the tags of [cur], in the order [tags] in which the
    map iteration yields them. *)
Fixpoint stepTags (nowTS : Z) (cur prev : list ConfigurationRollout)
    (tags : list string) : option (list ConfigurationRollout) :=
  match tags with
  | [] => Some []
  | t :: rest =>
      match stepTag nowTS cur prev t with
      | None => None
      | Some here =>
          option_map (app here) (stepTags nowTS cur prev rest)
      end
  end.

(** The order of [sortRollout]: by tag and within a tag by name. *)
Definition less (a b : ConfigurationRollout) : bool :=
  if String.eqb (Tag a) (Tag b)
  then String.ltb (ConfigurationName a) (ConfigurationName b)
  else String.ltb (Tag a) (Tag b).

Fixpoint insertConfig (c : ConfigurationRollout)
    (sorted : list ConfigurationRollout) : list ConfigurationRollout :=
  match sorted with
  | [] => [c]
  | x :: tl => if less c x then c :: sorted else x :: insertConfig c tl
  end.

(** [sortRollout], as an insertion sort.  [sort.Slice] may leave
    configurations with the same tag and name in either order; the
    properties below depend on the members of the result only. *)
Definition sortRollout (cs : list ConfigurationRollout)
    : list ConfigurationRollout :=
  fold_right insertConfig [] cs.

(** The keys of [currConfigs], each once. *)
Definition tagsOf (cs : list ConfigurationRollout) : list string :=
  nodup string_dec (map Tag cs).

(** [Step] for a given iteration order of the map of tags. *)
Definition StepWith (tags : list string) (cur : Rollout)
    (prev : option Rollout) (nowTS : Z) : option Rollout :=
  match prev with
  | None => Some cur
  | Some prev =>
      if (length (Configurations prev) =? 0)%nat then Some cur
      else
        option_map (fun ret => mkRollout (sortRollout ret))
          (stepTags nowTS (Configurations cur) (Configurations prev) tags)
  end.

(** [cur.Step(prev, nowTS)]; [prev = None] is the nil pointer. *)
Definition Step (cur : Rollout) (prev : option Rollout) (nowTS : Z)
    : option Rollout :=
  StepWith (tagsOf (Configurations cur)) cur prev nowTS.

(** ** List views of the loops

    The loops of the source walk a slice by index and update it in place.
    The functions below describe the same computations by recursion on
    the list of revisions; the lemmas of the next part relate them to
    the loops. *)

(** The decreasing case of [adjustPercentage], on the revisions from the
    oldest one. *)
Fixpoint shrink (diff : Z) (revs : list RevisionRollout)
    : list RevisionRollout :=
  match revs with
  | [] => []
  | r :: newer =>
      if diff >? 0 then
        if Rev.Percent r >? diff
        then Rev.setPercent r (Rev.Percent r - diff) :: newer
        else shrink (diff - Rev.Percent r) newer
      else revs
  end.

(** The draining of [stepRevisions], on the revisions before the newest
    one listed from the newest to the oldest. *)
Fixpoint drainFrom (remaining : Z) (newestFirst : list RevisionRollout)
    : list RevisionRollout :=
  match newestFirst with
  | [] => []
  | r :: older =>
      if remaining >? 0 then
        if Rev.Percent r >? remaining
        then Rev.setPercent r (Rev.Percent r - remaining) :: older
        else drainFrom (remaining - Rev.Percent r) older
      else newestFirst
  end.

(** The point taken by [stepConfig] for a new revision, on the revisions
    listed from the newest to the oldest. *)
Fixpoint stealFrom (newestFirst : list RevisionRollout)
    : list RevisionRollout :=
  match newestFirst with
  | [] => []
  | r :: older =>
      if Rev.Percent r >? 0
      then Rev.setPercent r (Rev.Percent r - 1) :: older
      else r :: stealFrom older
  end.

(** The percentage the newest revision gets from a step. *)
Definition steppedPercent (cr : ConfigurationRollout) (p : Z) : Z :=
  if p + StepSize cr >? Percent cr then Percent cr else p + StepSize cr.

(** No revision has a negative percentage. *)
Definition nonNegative (revs : list RevisionRollout) : Prop :=
  Forall (fun r => 0 <= Rev.Percent r) revs.

(** ** Floating point

    [float64] is the binary64 format of IEEE 754 with rounding to the
    nearest even, in the bit-level specification of the standard
    library: a value is a zero, an infinity, a NaN, or a sign, a mantissa
    and an exponent. *)

Definition float64 : Type := spec_float.

Definition prec : Z := 53.
Definition emax : Z := 1024.

(** The conversion [float64(z)] of an integer. *)
Definition ofInt (z : Z) : float64 := binary_normalize prec emax z 0 false.

Definition fadd : float64 -> float64 -> float64 := SFadd prec emax.
Definition fsub : float64 -> float64 -> float64 := SFsub prec emax.
Definition fmul : float64 -> float64 -> float64 := SFmul prec emax.
Definition fdiv : float64 -> float64 -> float64 := SFdiv prec emax.

(** The largest integer at most [x], for a finite [x]. *)
Definition floorZ (x : float64) : Z :=
  match x with
  | S754_finite s m e => Z.shiftl (cond_Zopp s (Zpos m)) e
  | _ => 0
  end.

(** The integer part of [x], for a finite [x]. *)
Definition truncZ (x : float64) : Z :=
  match x with
  | S754_finite s m e => cond_Zopp s (Z.shiftl (Zpos m) e)
  | _ => 0
  end.

(** [math.Floor]: zeros, infinities and NaN are returned as they are. *)
Definition Floor (x : float64) : float64 :=
  match x with
  | S754_finite _ _ _ => ofInt (floorZ x)
  | _ => x
  end.

(** [math.Ceil(x)] is [-Floor(-x)]. *)
Definition Ceil (x : float64) : float64 := SFopp (Floor (SFopp x)).

Definition isPosInf (x : float64) : bool :=
  match x with S754_infinity false => true | _ => false end.

Definition isNaN (x : float64) : bool :=
  match x with S754_nan => true | _ => false end.

Definition Signbit (x : float64) : bool :=
  match x with
  | S754_zero s | S754_infinity s | S754_finite s _ _ => s
  | S754_nan => false
  end.

(** [math.Max], with its special cases. *)
Definition Max (x y : float64) : float64 :=
  if isPosInf x || isPosInf y then S754_infinity false
  else if isNaN x || isNaN y then S754_nan
  else if SFeqb x (S754_zero false) && SFeqb x y
       then (if Signbit x then y else x)
  else if SFltb y x then x else y.

(** The conversion [int(x)]: the integer part of [x].  For a NaN, an
    infinity and an integer part outside of 64 bits the result depends
    on the processor; it is the one of amd64. *)
Definition toInt (x : float64) : Z :=
  match x with
  | S754_zero _ => 0
  | S754_finite _ _ _ =>
      let z := truncZ x in
      if (- 2 ^ 63 <=? z) && (z <? 2 ^ 63) then z else - 2 ^ 63
  | _ => - 2 ^ 63
  end.

(** [time.Second], the nanoseconds of a second. *)
Definition Second : Z := 1000000000.

(** [time.Duration(d).Seconds()], [d] being a number of nanoseconds. *)
Definition Seconds (d : Z) : float64 :=
  let sec := Z.quot d Second in
  let nsec := Z.rem d Second in
  fadd (ofInt sec) (fdiv (ofInt nsec) (ofInt 1000000000)).

(** The mantissa of a positive integer below 2^53, brought to 53 digits. *)
Definition norm (a : positive) : positive :=
  Z.to_pos (Zpos a * 2 ^ (53 - Zpos (Pos.size a))).

(** The float64 of the integer [a] or [-a], for [a] below 2^53. *)
Definition canonical (s : bool) (a : positive) : float64 :=
  S754_finite s (norm a) (Zpos (Pos.size a) - 53).

(** ** [computeProperties] *)

Definition durationSecs : float64 := ofInt 120.

Definition numStepsOf (cur : ConfigurationRollout)
    (minStepSec durationSecs : float64) : float64 :=
  let numSteps := fdiv durationSecs minStepSec in
  let pf := ofInt (Percent cur) in
  if SFltb pf numSteps then fsub pf (ofInt 1) else numSteps.

Definition stepSizeOf (cur : ConfigurationRollout)
    (minStepSec durationSecs : float64) : float64 :=
  let pf := ofInt (Percent cur) in
  Floor (fdiv (fsub pf (ofInt 1)) (numStepsOf cur minStepSec durationSecs)).

Definition stepDurationOf (cur : ConfigurationRollout)
    (minStepSec durationSecs : float64) : float64 :=
  Ceil (fdiv durationSecs (numStepsOf cur minStepSec durationSecs)).

(** [cur.computeProperties(nowTS, minStepSec, durationSecs)].  The
    product and the sum of [NextStepTime] are rounded one after the
    other. *)
Definition computeProperties (cur : ConfigurationRollout)
    (nowTS minStepSec durationSecs : float64) : ConfigurationRollout :=
  let stepSize := stepSizeOf cur minStepSec durationSecs in
  let stepDuration := stepDurationOf cur minStepSec durationSecs in
  mkConfigurationRollout (ConfigurationName cur) (Tag cur) (Percent cur)
    (Revisions cur) (Deadline cur) (StartTime cur)
    (toInt (fadd nowTS (fmul stepDuration (ofInt Second))))
    (toInt stepDuration)
    (toInt stepSize).

(** ** [ObserveReady] *)

(** The [minStepSec] that [ObserveReady] computes for a configuration
    started at [startTime]. *)
Definition minStepSecOf (nowTS startTime : Z) : float64 :=
  Max (ofInt 1) (Ceil (Seconds (nowTS - startTime))).

(** The body of the loop of [ObserveReady]. *)
Definition observe (nowTS : Z) (c : ConfigurationRollout)
    : ConfigurationRollout :=
  if (StepDuration c =? 0) && (StartTime c >? 0)
  then computeProperties c (ofInt nowTS) (minStepSecOf nowTS (StartTime c))
         durationSecs
  else c.

Definition ObserveReady (cur : Rollout) (nowTS : Z) : Rollout :=
  mkRollout (map (observe nowTS) (Configurations cur)).

(** ** Sample values

    A revision and a configuration without timing information, for the
    examples. *)

Definition revision (n : string) (p : Z) : RevisionRollout := Rev.mk n p.

Definition target (name tag : string) (p : Z) (revs : list RevisionRollout)
    : ConfigurationRollout :=
  mkConfigurationRollout name tag p revs 0 0 0 0 0.

(** ** Invariants, orders and schedules

    The notions in which the properties of the functions are stated. *)

(** The names of a list of revisions, in order. *)
Definition names (revs : list RevisionRollout) : list string :=
  map Rev.RevisionName revs.

(** Every revision carries traffic. *)
Definition allPositive (revs : list RevisionRollout) : Prop :=
  Forall (fun r => 0 < Rev.Percent r) revs.

(** What [Validate] checks on one configuration. *)
Definition validConfig (c : ConfigurationRollout) : Prop :=
  Percent c <= 100 /\ total (Revisions c) = Percent c.


(** The invariant of a stored configuration: what [Validate] checks, and
    no negative percentage. *)
Definition wellFormed (c : ConfigurationRollout) : Prop :=
  validConfig c /\ nonNegative (Revisions c).

(** A configuration of the desired rollout: one revision, which holds the
    percentage of the configuration. *)
Definition goalShaped (c : ConfigurationRollout) : Prop :=
  exists r, Revisions c = [r] /\ Rev.Percent r = Percent c
            /\ 0 <= Percent c <= 100.

(** A configuration of the result of [Step]: a configuration of [cur]
    as it is, or the step of one with more than 1% from the
    configuration of [prev] with its name and tag. *)
Definition steppedFrom (nowTS : Z) (cur prev : list ConfigurationRollout)
    (o : ConfigurationRollout) : Prop :=
  In o cur \/
  exists c p,
    In c cur /\ In p prev /\
    ConfigurationName c = ConfigurationName p /\ Tag c = Tag p /\
    1 < Percent c /\ stepConfig c p nowTS = Some o.

(** The pair that identifies a rollout target. *)
Definition key (c : ConfigurationRollout) : string * string :=
  (Tag c, ConfigurationName c).

(** [a] may come before [b] in a sorted rollout. *)
Definition notAfter (a b : ConfigurationRollout) : Prop := less b a = false.

(** Two outcomes of the loop over the tags agree: both panic, or both
    return the same configurations up to their order. *)
Definition agree (a b : option (list ConfigurationRollout)) : Prop :=
  match a, b with
  | Some x, Some y => Permutation x y
  | None, None => True
  | _, _ => False
  end.

(** The order of the configurations of one tag. *)
Definition nameBefore (a b : ConfigurationRollout) : Prop :=
  String.ltb (ConfigurationName a) (ConfigurationName b) = true.

(** [c'] is [c] up to the cadence: the fields [NextStepTime],
    [StepDuration] and [StepSize]. *)
Definition sameButCadence (c c' : ConfigurationRollout) : Prop :=
  ConfigurationName c' = ConfigurationName c /\
  Tag c' = Tag c /\
  Percent c' = Percent c /\
  Revisions c' = Revisions c /\
  Deadline c' = Deadline c /\
  StartTime c' = StartTime c.

(** The cells of the cadence table: the percentages from [a] on. *)
Definition range (a n : nat) : list Z := map Z.of_nat (seq a n).

(** The cadence of a target at [p] percent for a minimal step of [k]
    whole seconds and the default duration. *)
Definition cadence (p k : Z) : Z * Z :=
  let r :=
    computeProperties (mkConfigurationRollout "" "" p [] 0 0 0 0 0)
      (ofInt 0) (ofInt k) durationSecs in
  (StepSize r, StepDuration r).

(** The check of one cell of the cadence table. *)
Definition cadenceOk (p k : Z) : bool :=
  let '(ss, sd) := cadence p k in
  (0 <=? ss) && (ss <=? p - 1) && (k <=? sd) && (sd <=? 120) &&
  (Bool.eqb (ss =? 0) (((p - 1) * k <? 120) && (120 <=? p * k))) &&
  ((p * k <? 120) || (sd <=? k + 1)) &&
  ((120 <=? p * k) || ((ss =? 1) && (sd =? (120 + p - 2) / (p - 1)))) &&
  ((ss =? 0) || (120 <=? ((p - 1 + ss - 1) / ss) * sd)).

(** A target between 2% and 100% whose first step was observed a whole
    number of seconds, at most the default duration, after its start. *)
Definition observedInTime (nowTS : Z) (c : ConfigurationRollout) : Prop :=
  2 <= Percent c <= 100 /\
  exists k, 1 <= k <= 120 /\ nowTS - StartTime c = k * Second.

(** * Properties *)

(** ** Slices *)

Arguments total : simpl never.

(** The sign conditions of a concrete list of revisions. *)
Ltac nonneg := repeat constructor; simpl; lia.

(** Concrete float64 computations. *)
Ltac float_eval := vm_compute; reflexivity.

Create HintDb rollout.

Lemma total_from (revs : list RevisionRollout) (a : Z) :
  fold_left (fun tot r => tot + Rev.Percent r) revs a = a + total revs.
Proof.
  unfold total. revert a.
  induction revs as [|r tl IH]; intro a; simpl.
  - lia.
  - rewrite (IH (a + Rev.Percent r)), (IH (Rev.Percent r)). lia.
Qed.

Lemma total_cons (r : RevisionRollout) (revs : list RevisionRollout) :
  total (r :: revs) = Rev.Percent r + total revs.
Proof. unfold total at 1. simpl. apply total_from. Qed.

Lemma total_nil : total [] = 0.
Proof. reflexivity. Qed.

Lemma total_app (l1 l2 : list RevisionRollout) :
  total (l1 ++ l2) = total l1 + total l2.
Proof.
  induction l1 as [|r tl IH]; simpl.
  - change (total []) with 0. lia.
  - rewrite !total_cons, IH. lia.
Qed.

Lemma total_rev (l : list RevisionRollout) : total (rev l) = total l.
Proof.
  induction l as [|r tl IH]; simpl; [reflexivity|].
  rewrite total_app, !total_cons, IH. change (total []) with 0. lia.
Qed.

Lemma length_setAt (l : list RevisionRollout) (i : nat) (r : RevisionRollout) :
  length (setAt l i r) = length l.
Proof.
  revert i. induction l as [|x tl IH]; intros [|i]; simpl; auto.
Qed.

Lemma setAt_split (l : list RevisionRollout) (i : nat) (r : RevisionRollout) :
  (i < length l)%nat ->
  setAt l i r = firstn i l ++ r :: skipn (S i) l.
Proof.
  revert i. induction l as [|x tl IH]; intros [|i] H; simpl in *; try lia.
  - reflexivity.
  - f_equal. apply IH. lia.
Qed.

Lemma at_split (l : list RevisionRollout) (i : nat) :
  (i < length l)%nat ->
  l = firstn i l ++ at_ l i :: skipn (S i) l.
Proof.
  revert i. induction l as [|x tl IH]; intros [|i] H; simpl in *; try lia.
  - reflexivity.
  - f_equal. apply IH. lia.
Qed.

Lemma skipn_at (l : list RevisionRollout) (i : nat) :
  (i < length l)%nat -> skipn i l = at_ l i :: skipn (S i) l.
Proof.
  revert i. induction l as [|x tl IH]; intros [|i] H; simpl in *; try lia.
  - reflexivity.
  - apply IH. lia.
Qed.

Lemma firstn_succ (l : list RevisionRollout) (i : nat) :
  (i < length l)%nat -> firstn (S i) l = firstn i l ++ [at_ l i].
Proof.
  revert i. induction l as [|x tl IH]; intros [|i] H; simpl in *; try lia.
  - reflexivity.
  - f_equal. apply IH. lia.
Qed.

Lemma firstn_setAt (l : list RevisionRollout) (i : nat) (r : RevisionRollout) :
  firstn i (setAt l i r) = firstn i l.
Proof.
  revert i. induction l as [|x tl IH]; intros [|i]; simpl; auto.
  f_equal. apply IH.
Qed.

Lemma skipn_setAt (l : list RevisionRollout) (i : nat) (r : RevisionRollout) :
  skipn (S i) (setAt l i r) = skipn (S i) l.
Proof.
  revert i. induction l as [|x tl IH]; intros [|i]; simpl; auto.
  apply IH.
Qed.

Lemma skipn_setAt_lt (l : list RevisionRollout) (i k : nat)
    (r : RevisionRollout) :
  (i < k)%nat -> skipn k (setAt l i r) = skipn k l.
Proof.
  revert i k. induction l as [|x tl IH]; intros [|i] [|k] H; simpl;
    auto; try lia.
  apply IH. lia.
Qed.

Lemma at_setAt (l : list RevisionRollout) (i : nat) (r : RevisionRollout) :
  (i < length l)%nat -> at_ (setAt l i r) i = r.
Proof.
  unfold at_. revert i.
  induction l as [|x tl IH]; intros [|i] H; simpl in *; try lia.
  - reflexivity.
  - apply IH. lia.
Qed.

Lemma at_app_last (l : list RevisionRollout) (r : RevisionRollout) :
  at_ (l ++ [r]) (length l) = r.
Proof. unfold at_. rewrite app_nth2, Nat.sub_diag by lia. reflexivity. Qed.

Lemma at_skipn (l : list RevisionRollout) (i : nat) :
  at_ l i = at_ (skipn i l) 0.
Proof.
  unfold at_. revert i. induction l as [|x tl IH]; intros [|i]; simpl; auto.
Qed.

Lemma setAt_same (l : list RevisionRollout) (i : nat) :
  setAt l i (at_ l i) = l.
Proof.
  unfold at_. revert i. induction l as [|x tl IH]; intros [|i]; simpl; auto.
  f_equal. apply IH.
Qed.

(** ** The loops and their list views *)

Lemma shrink_nonpos (diff : Z) (revs : list RevisionRollout) :
  diff <= 0 -> shrink diff revs = revs.
Proof.
  intro H. destruct revs as [|r tl]; simpl; [reflexivity|].
  destruct (Z.gtb_spec diff 0); [lia | reflexivity].
Qed.

Lemma drainFrom_nonpos (remaining : Z) (l : list RevisionRollout) :
  remaining <= 0 -> drainFrom remaining l = l.
Proof.
  intro H. destruct l as [|r tl]; simpl; [reflexivity|].
  destruct (Z.gtb_spec remaining 0); [lia | reflexivity].
Qed.

Lemma shrinkLoop_shrink (fuel : nat) :
  forall (revs : list RevisionRollout) (diff : Z) (i : nat),
    (length revs <= i + fuel)%nat ->
    skipn (snd (shrinkLoop fuel revs diff i)) (fst (shrinkLoop fuel revs diff i))
    = shrink diff (skipn i revs).
Proof.
  induction fuel as [|fuel IH]; intros revs diff i Hlen; simpl.
  - rewrite skipn_all2 by lia. reflexivity.
  - destruct (Z.gtb_spec diff 0) as [Hd|Hd]; simpl.
    + destruct (Nat.ltb_spec i (length revs)) as [Hi|Hi]; simpl.
      * rewrite (skipn_at revs i Hi). simpl.
        destruct (Z.gtb_spec diff 0); [|lia].
        destruct (Z.gtb_spec (Rev.Percent (at_ revs i)) diff) as [Hp|Hp]; simpl.
        -- unfold setPercentAt. rewrite (setAt_split _ _ _ Hi).
           rewrite skipn_app, firstn_length_le, Nat.sub_diag by lia.
           rewrite skipn_all2 by (rewrite firstn_length_le; lia).
           reflexivity.
        -- apply IH. lia.
      * rewrite skipn_all2 by lia. reflexivity.
    + rewrite shrink_nonpos by lia. reflexivity.
Qed.

Lemma drainLoop_view (k : nat) :
  forall (revs : list RevisionRollout) (remaining : Z),
    (k <= length revs)%nat ->
    firstn (snd (drainLoop k revs remaining k))
           (fst (drainLoop k revs remaining k))
    = rev (drainFrom remaining (rev (firstn k revs)))
    /\ skipn k (fst (drainLoop k revs remaining k)) = skipn k revs
    /\ length (fst (drainLoop k revs remaining k)) = length revs
    /\ (snd (drainLoop k revs remaining k) <= k)%nat.
Proof.
  induction k as [|k IH]; intros revs remaining Hk.
  - simpl. repeat split; auto.
  - assert (Hlt : (k < length revs)%nat) by lia.
    cbn [drainLoop].
    rewrite (firstn_succ revs k Hlt), rev_app_distr. cbn [rev app drainFrom].
    destruct (Z.gtb_spec remaining 0) as [Hr|Hr].
    + destruct (Z.gtb_spec (Rev.Percent (at_ revs k)) remaining) as [Hp|Hp].
      * cbn [fst snd]. unfold setPercentAt.
        rewrite (firstn_succ _ k) by (rewrite length_setAt; lia).
        rewrite firstn_setAt, at_setAt by lia.
        cbn [rev]. rewrite rev_involutive.
        rewrite skipn_setAt, length_setAt. repeat split; auto.
      * cbn [pred].
        destruct (IH revs (remaining - Rev.Percent (at_ revs k)))
          as (H1 & H2 & H3 & H4); [lia|].
        repeat split; auto.
        rewrite <- (Nat.add_1_l k), <- !skipn_skipn, H2. reflexivity.
    + cbn [fst snd rev]. rewrite rev_involutive, <- firstn_succ by lia.
      repeat split; auto.
Qed.

Lemma stealLoop_view (k : nat) :
  forall revs : list RevisionRollout,
    (k <= length revs)%nat ->
    stealLoop k revs = rev (stealFrom (rev (firstn k revs))) ++ skipn k revs.
Proof.
  induction k as [|k IH]; intros revs Hk.
  - reflexivity.
  - assert (Hlt : (k < length revs)%nat) by lia.
    cbn [stealLoop].
    rewrite (firstn_succ revs k Hlt), rev_app_distr. cbn [rev app stealFrom].
    destruct (Z.gtb_spec (Rev.Percent (at_ revs k)) 0) as [Hp|Hp].
    + unfold setPercentAt. rewrite (setAt_split _ _ _ Hlt).
      cbn [rev]. rewrite rev_involutive, <- app_assoc. reflexivity.
    + rewrite IH by lia. cbn [rev]. rewrite <- app_assoc. cbn [app].
      rewrite <- skipn_at by lia. reflexivity.
Qed.

Lemma stealLoop_all (revs : list RevisionRollout) :
  stealLoop (length revs) revs = rev (stealFrom (rev revs)).
Proof.
  rewrite stealLoop_view, firstn_all, skipn_all, app_nil_r by lia.
  reflexivity.
Qed.

(** The redistribution of [adjustPercentage] in terms of the list views. *)
Lemma adjustPercentage_view (goal : Z) (cr : ConfigurationRollout) :
  adjustPercentage goal cr =
  if goal =? 0 then Some (setRevisions cr [])
  else if goal - Percent cr >? 0 then
    match rev (Revisions cr) with
    | [] => None
    | newest :: older =>
        Some (setRevisions cr
                (rev older ++
                 [Rev.setPercent newest
                    (Rev.Percent newest + (goal - Percent cr))]))
    end
  else if goal - Percent cr <? 0 then
    Some (setRevisions cr (shrink (Percent cr - goal) (Revisions cr)))
  else Some cr.
Proof.
  unfold adjustPercentage. cbv zeta.
  destruct (goal =? 0); [reflexivity|].
  destruct (goal - Percent cr >? 0).
  - destruct (Revisions cr) as [|r0 tl] using rev_ind; [reflexivity|].
    rewrite rev_app_distr, length_app, Nat.add_comm. cbn [length plus rev app].
    unfold setPercentAt. rewrite at_app_last.
    rewrite setAt_split by (rewrite length_app; simpl; lia).
    rewrite firstn_app, firstn_all, Nat.sub_diag. cbn [firstn].
    rewrite app_nil_r.
    rewrite skipn_all2 by (rewrite length_app; simpl; lia).
    rewrite rev_involutive. reflexivity.
  - destruct (goal - Percent cr <? 0); [|reflexivity].
    pose proof (shrinkLoop_shrink (length (Revisions cr)) (Revisions cr)
                  (- (goal - Percent cr)) 0) as H.
    destruct (shrinkLoop _ _ _ _) as [revs i]. cbn [fst snd] in H.
    rewrite H by lia. cbn [skipn].
    replace (- (goal - Percent cr)) with (Percent cr - goal) by lia.
    reflexivity.
Qed.

(** The step of [stepRevisions] in terms of the list views. *)
Lemma stepRevisions_view (goal : ConfigurationRollout) (nowTS : Z)
    (older : list RevisionRollout) (newest : RevisionRollout) :
  Revisions goal = older ++ [newest] ->
  older <> [] ->
  NextStepTime goal <= nowTS ->
  stepRevisions goal nowTS =
  setNextStepTime
    (setRevisions goal
       (rev (drainFrom (StepSize goal) (rev older)) ++
        [Rev.setPercent newest (steppedPercent goal (Rev.Percent newest))]))
    (nowTS + StepDuration goal).
Proof.
  intros Hrevs Hne Hdue. unfold stepRevisions.
  destruct (Z.ltb_spec nowTS (NextStepTime goal)); [lia|].
  assert (Hlen : length (Revisions goal) = S (length older)).
  { rewrite Hrevs, length_app. simpl. lia. }
  assert (0 < length older)%nat.
  { destruct older; [congruence | simpl; lia]. }
  destruct (Nat.ltb_spec (length (Revisions goal)) 2); [lia|].
  cbn [orb]. rewrite Hlen.
  replace (S (length older) - 1)%nat with (length older) by lia.
  destruct (drainLoop_view (length older) (Revisions goal) (StepSize goal))
    as (Hv1 & Hv2 & Hv3 & Hv4); [lia|].
  destruct (drainLoop _ _ _ _) as [revs writePos]. cbn [fst snd] in *.
  assert (Hnew : at_ revs (length older) = newest).
  { rewrite at_skipn, Hv2, Hrevs, skipn_app, skipn_all, Nat.sub_diag.
    reflexivity. }
  rewrite Hnew.
  assert (Hfirst : firstn (length older) (Revisions goal) = older).
  { rewrite Hrevs, firstn_app, firstn_all, Nat.sub_diag. simpl.
    apply app_nil_r. }
  rewrite Hfirst in Hv1.
  assert (Hw : (writePos < length revs)%nat) by lia.
  unfold setPercentAt.
  rewrite !at_setAt by (rewrite ?length_setAt; lia).
  f_equal. f_equal.
  unfold steppedPercent. cbn [Rev.setPercent Rev.Percent Rev.RevisionName].
  destruct (Z.gtb_spec (Rev.Percent newest + StepSize goal) (Percent goal));
    rewrite Nat.add_1_r, firstn_succ by (rewrite ?length_setAt; lia);
    rewrite at_setAt by (rewrite ?length_setAt; lia);
    rewrite !firstn_setAt, Hv1; reflexivity.
Qed.

(** ** Totals and signs along the list views *)

Lemma nonNegative_total (revs : list RevisionRollout) :
  nonNegative revs -> 0 <= total revs.
Proof.
  induction 1 as [|r tl Hr _ IH].
  - reflexivity.
  - rewrite total_cons. lia.
Qed.

Lemma nonNegative_rev (revs : list RevisionRollout) :
  nonNegative revs -> nonNegative (rev revs).
Proof. apply Forall_rev. Qed.

Lemma nonNegative_app (l1 l2 : list RevisionRollout) :
  nonNegative (l1 ++ l2) <-> nonNegative l1 /\ nonNegative l2.
Proof. apply Forall_app. Qed.

Lemma nonNegative_le_total (revs : list RevisionRollout) (r : RevisionRollout) :
  nonNegative revs -> In r revs -> Rev.Percent r <= total revs.
Proof.
  induction 1 as [|x tl Hx Htl IH]; intros Hin; [contradiction|].
  rewrite total_cons. pose proof (nonNegative_total tl Htl).
  destruct Hin as [->|Hin]; [lia|]. specialize (IH Hin). lia.
Qed.

Lemma total_shrink (revs : list RevisionRollout) :
  forall diff : Z,
    0 <= diff <= total revs -> total (shrink diff revs) = total revs - diff.
Proof.
  induction revs as [|r tl IH]; intros diff Hd; simpl.
  - change (total []) with 0 in *. lia.
  - rewrite total_cons in Hd.
    destruct (Z.gtb_spec diff 0).
    + destruct (Z.gtb_spec (Rev.Percent r) diff).
      * rewrite !total_cons. simpl. lia.
      * rewrite IH, total_cons by lia. lia.
    + lia.
Qed.

Lemma nonNegative_shrink (revs : list RevisionRollout) :
  forall diff : Z, nonNegative revs -> nonNegative (shrink diff revs).
Proof.
  induction revs as [|r tl IH]; intros diff Hn; simpl; [constructor|].
  inversion Hn; subst.
  destruct (Z.gtb_spec diff 0); [|assumption].
  destruct (Z.gtb_spec (Rev.Percent r) diff).
  - constructor; [simpl; lia | assumption].
  - apply IH. assumption.
Qed.

Lemma nonNegative_drainFrom (l : list RevisionRollout) :
  forall remaining : Z, nonNegative l -> nonNegative (drainFrom remaining l).
Proof.
  induction l as [|r tl IH]; intros remaining Hn; simpl; [constructor|].
  inversion Hn; subst.
  destruct (Z.gtb_spec remaining 0); [|assumption].
  destruct (Z.gtb_spec (Rev.Percent r) remaining).
  - constructor; [simpl; lia | assumption].
  - apply IH. assumption.
Qed.

#[export] Hint Resolve nonNegative_rev nonNegative_shrink
  nonNegative_drainFrom : rollout.

Lemma total_stealFrom (l : list RevisionRollout) :
  nonNegative l -> 0 < total l -> total (stealFrom l) = total l - 1.
Proof.
  induction 1 as [|r tl Hr Htl IH]; intro Hpos; simpl.
  - change (total []) with 0 in Hpos. lia.
  - rewrite total_cons in Hpos.
    destruct (Z.gtb_spec (Rev.Percent r) 0).
    + rewrite !total_cons. simpl. lia.
    + rewrite !total_cons, IH by lia. lia.
Qed.

Lemma stealFrom_zero (l : list RevisionRollout) :
  Forall (fun r => Rev.Percent r <= 0) l -> stealFrom l = l.
Proof.
  induction 1 as [|r tl Hr Htl IH]; simpl; [reflexivity|].
  destruct (Z.gtb_spec (Rev.Percent r) 0); [lia|]. now rewrite IH.
Qed.

Lemma total_nonZero (revs : list RevisionRollout) :
  total (nonZero revs) = total revs.
Proof.
  induction revs as [|r tl IH]; simpl; [reflexivity|].
  destruct (Z.eqb_spec (Rev.Percent r) 0) as [Hz|Hz]; simpl.
  - rewrite total_cons, IH. lia.
  - rewrite !total_cons, IH. reflexivity.
Qed.

(** ** [adjustPercentage] *)

(** [adjustPercentage] panics exactly when it has to grow an empty list
    of revisions. *)
Lemma adjustPercentage_None (goal : Z) (cr : ConfigurationRollout) :
  adjustPercentage goal cr = None <->
  goal <> 0 /\ Percent cr < goal /\ Revisions cr = [].
Proof.
  rewrite adjustPercentage_view.
  destruct (Z.eqb_spec goal 0) as [Hz|Hz]; [split; [discriminate | tauto]|].
  destruct (Z.gtb_spec (goal - Percent cr) 0) as [Hd|Hd].
  - destruct (Revisions cr) as [|r tl] using rev_ind.
    + simpl. split; [intros _; repeat split; auto; lia | reflexivity].
    + rewrite rev_app_distr. simpl. split; [discriminate|].
      intros (_ & _ & H). destruct tl; discriminate.
  - destruct (goal - Percent cr <? 0); (split; [discriminate|]); lia.
Qed.

(** [adjustPercentage] writes [cr.Revisions] and nothing else. *)
Lemma adjustPercentage_frame (goal : Z) (cr cr' : ConfigurationRollout) :
  adjustPercentage goal cr = Some cr' -> cr' = setRevisions cr (Revisions cr').
Proof.
  rewrite adjustPercentage_view.
  destruct (goal =? 0); [intros [= <-]; reflexivity|].
  destruct (goal - Percent cr >? 0).
  - destruct (rev (Revisions cr)); [discriminate|].
    intros [= <-]. reflexivity.
  - destruct (goal - Percent cr <? 0); intros [= <-]; [reflexivity|].
    destruct cr; reflexivity.
Qed.

(** When the percentage of [cr] is the total of its revisions, the
    revisions add up to a non-negative [goal] afterwards. *)
Lemma adjustPercentage_total (goal : Z) (cr cr' : ConfigurationRollout) :
  total (Revisions cr) = Percent cr ->
  0 <= goal ->
  adjustPercentage goal cr = Some cr' ->
  total (Revisions cr') = goal.
Proof.
  intros Hsum Hgoal. rewrite adjustPercentage_view.
  destruct (Z.eqb_spec goal 0) as [Hz|Hz].
  { intros [= <-]. simpl. change (total []) with 0. lia. }
  destruct (Z.gtb_spec (goal - Percent cr) 0) as [Hd|Hd].
  - rewrite <- (total_rev (Revisions cr)) in Hsum.
    destruct (rev (Revisions cr)) as [|newest older]; [discriminate|].
    intros [= <-]. simpl.
    rewrite total_cons in Hsum.
    rewrite total_app, total_rev, total_cons. simpl.
    change (total []) with 0. lia.
  - destruct (Z.ltb_spec (goal - Percent cr) 0); intros [= <-]; simpl.
    + rewrite total_shrink; lia.
    + lia.
Qed.

Lemma adjustPercentage_nonNegative (goal : Z) (cr cr' : ConfigurationRollout) :
  nonNegative (Revisions cr) ->
  adjustPercentage goal cr = Some cr' ->
  nonNegative (Revisions cr').
Proof.
  intros Hn. rewrite adjustPercentage_view.
  destruct (goal =? 0); [intros [= <-]; constructor|].
  destruct (Z.gtb_spec (goal - Percent cr) 0) as [Hd|Hd].
  - apply nonNegative_rev in Hn.
    destruct (rev (Revisions cr)) as [|newest older]; [discriminate|].
    intros [= <-]. simpl. inversion Hn; subst.
    apply nonNegative_app. split.
    + apply nonNegative_rev. assumption.
    + constructor; [simpl; lia | constructor].
  - destruct (goal - Percent cr <? 0); intros [= <-]; simpl; auto.
    apply nonNegative_shrink. assumption.
Qed.

Lemma length_shrink (revs : list RevisionRollout) :
  forall diff : Z, (length (shrink diff revs) <= length revs)%nat.
Proof.
  induction revs as [|r tl IH]; intros diff; simpl; [lia|].
  destruct (diff >? 0); [|simpl; lia].
  destruct (Rev.Percent r >? diff); [simpl; lia|].
  specialize (IH (diff - Rev.Percent r)). lia.
Qed.

Lemma shrink_names (revs : list RevisionRollout) (diff : Z) :
  length (shrink diff revs) = length revs ->
  map Rev.RevisionName (shrink diff revs) = map Rev.RevisionName revs.
Proof.
  destruct revs as [|r tl]; simpl; [reflexivity|].
  destruct (diff >? 0); [|reflexivity].
  destruct (Rev.Percent r >? diff); [reflexivity|].
  pose proof (length_shrink tl (diff - Rev.Percent r)). lia.
Qed.

(** When [adjustPercentage] drops no revision, the names stay in place. *)
Lemma adjustPercentage_names (goal : Z) (cr cr' : ConfigurationRollout) :
  adjustPercentage goal cr = Some cr' ->
  length (Revisions cr') = length (Revisions cr) ->
  map Rev.RevisionName (Revisions cr') = map Rev.RevisionName (Revisions cr).
Proof.
  rewrite adjustPercentage_view.
  destruct (goal =? 0).
  { intros [= <-]. simpl. destruct (Revisions cr); [reflexivity|discriminate]. }
  destruct (goal - Percent cr >? 0).
  - rewrite <- (rev_involutive (Revisions cr)) at 2 3.
    destruct (rev (Revisions cr)) as [|newest older]; [discriminate|].
    intros [= <-] _. simpl. rewrite !map_app. reflexivity.
  - destruct (goal - Percent cr <? 0); intros [= <-]; simpl; auto.
    apply shrink_names.
Qed.

(** ** [stepRevisions] *)

Lemma stepRevisions_early (cr : ConfigurationRollout) (nowTS : Z) :
  nowTS < NextStepTime cr \/ (length (Revisions cr) < 2)%nat ->
  stepRevisions cr nowTS = cr.
Proof.
  intros H. unfold stepRevisions.
  destruct (Z.ltb_spec nowTS (NextStepTime cr)); [reflexivity|].
  destruct (Nat.ltb_spec (length (Revisions cr)) 2); [reflexivity|].
  lia.
Qed.

Lemma two_revisions (revs : list RevisionRollout) :
  (2 <= length revs)%nat ->
  exists older newest, revs = older ++ [newest] /\ older <> [].
Proof.
  destruct revs as [|r tl] using rev_ind; simpl; [lia|].
  rewrite length_app. simpl. intros H.
  exists tl, r. split; [reflexivity|]. destruct tl; [simpl in H; lia|discriminate].
Qed.

(** A step either leaves the configuration alone or is the step of
    [stepRevisions_view]. *)
Lemma stepRevisions_cases (cr : ConfigurationRollout) (nowTS : Z) :
  stepRevisions cr nowTS = cr \/
  exists older newest,
    Revisions cr = older ++ [newest] /\ older <> [] /\
    NextStepTime cr <= nowTS /\
    stepRevisions cr nowTS =
    setNextStepTime
      (setRevisions cr
         (rev (drainFrom (StepSize cr) (rev older)) ++
          [Rev.setPercent newest (steppedPercent cr (Rev.Percent newest))]))
      (nowTS + StepDuration cr).
Proof.
  destruct (Z.ltb_spec nowTS (NextStepTime cr)) as [Hn|Hn].
  { left. apply stepRevisions_early. auto. }
  destruct (Nat.ltb_spec (length (Revisions cr)) 2) as [Hl|Hl].
  { left. apply stepRevisions_early. auto. }
  right. destruct (two_revisions _ Hl) as (older & newest & Hr & Hne).
  exists older, newest. repeat split; auto.
  apply stepRevisions_view; auto.
Qed.

(** A step of size zero moves nothing when the newest revision is
    within the percentage of the configuration. *)
Lemma stepRevisions_zero (cr : ConfigurationRollout) (nowTS : Z) :
  StepSize cr = 0 ->
  nonNegative (Revisions cr) ->
  total (Revisions cr) = Percent cr ->
  Revisions (stepRevisions cr nowTS) = Revisions cr.
Proof.
  intros Hs Hn Ht.
  destruct (stepRevisions_cases cr nowTS)
    as [->|(older & newest & Hr & Hne & Hdue & ->)]; [reflexivity|].
  simpl. rewrite Hs, drainFrom_nonpos, rev_involutive by lia.
  rewrite Hr. f_equal. f_equal. unfold steppedPercent. rewrite Hs.
  assert (Rev.Percent newest <= Percent cr).
  { rewrite <- Ht. apply nonNegative_le_total; [assumption|].
    rewrite Hr. apply in_or_app. right. left. reflexivity. }
  destruct (Z.gtb_spec (Rev.Percent newest + 0) (Percent cr)); [lia|].
  destruct newest. unfold Rev.setPercent. simpl. f_equal. lia.
Qed.

(** ** [stepConfig] *)

(** The revisions of the result add up to [goal.Percent] whenever
    [stepConfig] returns. *)
Lemma stepConfig_total (goal prev ret : ConfigurationRollout) (nowTS : Z)
    (goal0 : RevisionRollout) :
  Revisions goal = [goal0] ->
  Rev.Percent goal0 = Percent goal ->
  0 <= Percent goal ->
  total (Revisions prev) = Percent prev ->
  nonNegative (Revisions prev) ->
  stepConfig goal prev nowTS = Some ret ->
  total (Revisions ret) = Percent goal.
Proof.
  intros Hg Hg0 Hpos Hsum Hnn. unfold stepConfig. cbv zeta.
  assert (Hgoal : total (Revisions goal) = Percent goal).
  { rewrite Hg, total_cons. change (total []) with 0. lia. }
  destruct (Nat.ltb_spec 0 (length (Revisions prev))) as [Hpc|Hpc].
  - destruct (adjustPercentage (Percent goal) prev) as [adj|] eqn:Hadj;
      [|discriminate].
    pose proof (adjustPercentage_total _ _ _ Hsum Hpos Hadj) as Htot.
    pose proof (adjustPercentage_nonNegative _ _ _ Hnn Hadj) as Hnn'.
    destruct (Nat.eqb_spec (length (Revisions adj)) 0) as [Hz|Hz].
    { intros [= <-]. exact Hgoal. }
    rewrite Hg. cbn [nth_error].
    destruct (nth_error (Revisions adj) _) as [newest|]; [|discriminate].
    destruct (String.eqb _ _).
    + intros [= <-]. rewrite stepRevisions_zero; auto.
    + intros [= <-]. cbn [Revisions].
      rewrite total_app, total_nonZero, stealLoop_all, total_rev.
      rewrite total_cons. change (total []) with 0. cbn [Rev.setPercent Rev.Percent].
      assert (0 < total (Revisions adj)).
      { rewrite Htot. destruct (Z.eq_dec (Percent goal) 0) as [E|E]; [|lia].
        rewrite adjustPercentage_view, E in Hadj. simpl in Hadj.
        injection Hadj as <-. simpl in Hz. congruence. }
      rewrite total_stealFrom; rewrite ?total_rev;
        auto using nonNegative_rev. lia.
  - destruct (Nat.eqb_spec (length (Revisions prev)) 0) as [Hz|Hz]; [|lia].
    intros [= <-]. exact Hgoal.
Qed.

Lemma length_adjustPercentage (goal : Z) (cr cr' : ConfigurationRollout) :
  adjustPercentage goal cr = Some cr' ->
  (length (Revisions cr') <= length (Revisions cr))%nat.
Proof.
  rewrite adjustPercentage_view.
  destruct (goal =? 0); [intros [= <-]; simpl; lia|].
  destruct (goal - Percent cr >? 0).
  - rewrite <- (rev_involutive (Revisions cr)) at 2.
    destruct (rev (Revisions cr)) as [|newest older]; [discriminate|].
    intros [= <-]. simpl. rewrite !length_app. simpl. lia.
  - destruct (goal - Percent cr <? 0); intros [= <-]; simpl; auto.
    apply length_shrink.
Qed.

(** [stepConfig] panics exactly when the redistribution to [goal.Percent]
    drops some, but not all, of the revisions of [prev]: the index [pc-1]
    was computed before the redistribution. *)
Lemma stepConfig_None (goal prev : ConfigurationRollout) (nowTS : Z) :
  Revisions goal <> [] ->
  stepConfig goal prev nowTS = None <->
  exists adj,
    adjustPercentage (Percent goal) prev = Some adj /\
    Revisions adj <> [] /\
    (length (Revisions adj) < length (Revisions prev))%nat.
Proof.
  intros Hg. unfold stepConfig. cbv zeta.
  destruct (Revisions goal) as [|goal0 gtl] eqn:Egoal; [congruence|].
  cbn [nth_error].
  destruct (Nat.ltb_spec 0 (length (Revisions prev))) as [Hpc|Hpc].
  - destruct (adjustPercentage (Percent goal) prev) as [adj|] eqn:Hadj.
    + pose proof (length_adjustPercentage _ _ _ Hadj) as Hle.
      destruct (Nat.eqb_spec (length (Revisions adj)) 0) as [Hz|Hz].
      * split; [discriminate|]. intros (adj' & [= <-] & Hne & _).
        destruct (Revisions adj); [congruence|discriminate].
      * destruct (nth_error (Revisions adj) (length (Revisions prev) - 1))
          as [newest|] eqn:Hnth.
        -- assert (length (Revisions prev) - 1 < length (Revisions adj))%nat
             by (apply nth_error_Some; congruence).
           split; [destruct (String.eqb _ _); discriminate|].
           intros (adj' & [= <-] & _ & Hlt). lia.
        -- apply nth_error_None in Hnth.
           split; [intros _|reflexivity].
           exists adj. repeat split; [|lia].
           intros E. rewrite E in Hz. simpl in Hz. congruence.
    + apply adjustPercentage_None in Hadj. destruct Hadj as (_ & _ & E).
      rewrite E in Hpc. simpl in Hpc. lia.
  - assert (E : Revisions prev = []).
    { destruct (Revisions prev); [reflexivity|simpl in Hpc; lia]. }
    rewrite E. simpl. split; [discriminate|].
    intros (adj & _ & _ & Hlt). lia.
Qed.

(** C1, at the input where the code departs from it.  The target [prev]
    holds 10% on revision a and 40% on revision b, and the goal asks for
    40% on b; both satisfy the premises of the claim, and [prev] is a
    valid rollout.  The redistribution drains a and drops it, after which
    [prev.Revisions[pc-1]] is out of range: [stepConfig] panics for every
    [nowTS] and returns no target, and so does [Step] on the two
    rollouts. *)
Theorem stepConfig_panics_after_drain :
  let goal := target "c" "" 40 [revision "b" 40] in
  let prev := target "c" "" 50 [revision "a" 10; revision "b" 40] in
  total (Revisions goal) = Percent goal /\
  total (Revisions prev) = Percent prev /\
  nonNegative (Revisions goal) /\
  nonNegative (Revisions prev) /\
  Validate (mkRollout [prev]) = true /\
  forall nowTS : Z,
    stepConfig goal prev nowTS = None /\
    Step (mkRollout [goal]) (Some (mkRollout [prev])) nowTS = None.
Proof.
  cbv zeta. repeat split.
  - nonneg.
  - nonneg.
Qed.







(** ** [adjustPercentage], applied and reversed *)

(** C5, as stated, fails: [adjustPercentage] reads [cr.Percent] as the
    current total and never writes it, so after growing a lone 50% to
    70% the call with the original 50% finds no difference and leaves
    the revisions at 70%. *)
Lemma adjustPercentage_reverse_keeps_goal :
  let cr := target "c" "" 50 [revision "a" 50] in
  total (Revisions cr) = Percent cr /\
  exists cr1 cr2,
    adjustPercentage 70 cr = Some cr1 /\
    adjustPercentage (Percent cr) cr1 = Some cr2 /\
    total (Revisions cr2) = 70 /\
    total (Revisions cr2) <> Percent cr.
Proof.
  cbv zeta. split; [reflexivity|].
  eexists. eexists. split; [reflexivity|]. split; [reflexivity|].
  split; [reflexivity|discriminate].
Qed.

(** A call whose goal is the recorded percentage changes nothing, unless
    that percentage is zero. *)
Lemma adjustPercentage_same (cr : ConfigurationRollout) :
  Percent cr <> 0 -> adjustPercentage (Percent cr) cr = Some cr.
Proof.
  intros Hp. rewrite adjustPercentage_view.
  destruct (Z.eqb_spec (Percent cr) 0); [contradiction|].
  rewrite Z.sub_diag. reflexivity.
Qed.

(** C5, amended.  Let the revisions of [cr] add up to [cr.Percent], the
    original total, and let [adjustPercentage(goal, cr)] return.  As the
    code stands, the call with the original total then changes nothing
    when that total is not zero, so the revisions keep the total of the
    first call.  The original total is restored when [cr.Percent] is set
    to [goal] between the two calls, [goal] and the original total being
    non-negative and the second call returning. *)
Theorem adjustPercentage_reverse (goal : Z) (cr cr1 : ConfigurationRollout) :
  total (Revisions cr) = Percent cr ->
  adjustPercentage goal cr = Some cr1 ->
  (Percent cr <> 0 -> adjustPercentage (Percent cr) cr1 = Some cr1) /\
  (0 <= goal -> total (Revisions cr1) = goal) /\
  (0 <= goal -> 0 <= Percent cr ->
   forall cr2 : ConfigurationRollout,
     adjustPercentage (Percent cr) (setPercent cr1 goal) = Some cr2 ->
     total (Revisions cr2) = Percent cr).
Proof.
  intros Hsum Hadj.
  pose proof (adjustPercentage_frame _ _ _ Hadj) as Hframe.
  assert (Hp : Percent cr1 = Percent cr) by (rewrite Hframe; reflexivity).
  split; [|split].
  - intros Hne. rewrite <- Hp. apply adjustPercentage_same. congruence.
  - intros Hgoal. eapply adjustPercentage_total; eauto.
  - intros Hgoal Horig cr2 Hback.
    eapply adjustPercentage_total; [| exact Horig | exact Hback].
    simpl. eapply adjustPercentage_total; eauto.
Qed.

Lemma adjustPercentage_reverse_witness :
  let cr := target "c" "" 50 [revision "a" 40; revision "b" 10] in
  let cr1 := setRevisions cr [revision "b" 5] in
  (Percent cr <> 0 -> adjustPercentage (Percent cr) cr1 = Some cr1) /\
  (0 <= 5 -> total (Revisions cr1) = 5) /\
  (0 <= 5 -> 0 <= Percent cr ->
   forall cr2 : ConfigurationRollout,
     adjustPercentage (Percent cr) (setPercent cr1 5) = Some cr2 ->
     total (Revisions cr2) = Percent cr).
Proof.
  cbv zeta.
  apply (adjustPercentage_reverse 5
           (target "c" "" 50 [revision "a" 40; revision "b" 10])).
  - reflexivity.
  - reflexivity.
Defined.

(** C10, as stated, fails in its last part: when the old percentage is
    zero, the following call with that percentage as the goal clears the
    revisions. *)
Lemma adjustPercentage_zero_clears :
  let cr := target "c" "" 0 [revision "a" 0] in
  exists cr1,
    adjustPercentage 5 cr = Some cr1 /\
    Revisions cr1 = [revision "a" 5] /\
    adjustPercentage (Percent cr) cr1 = Some (setRevisions cr1 []) /\
    setRevisions cr1 [] <> cr1.
Proof.
  cbv zeta. eexists. split; [reflexivity|]. split; [reflexivity|].
  split; [reflexivity|discriminate].
Qed.

(** C10, amended.  [adjustPercentage(goal, cr)] changes [cr.Revisions]
    only; every other field, [cr.Percent] among them, keeps its value.
    A call that follows with the old [cr.Percent] as its goal changes
    nothing when that percentage is not zero, whatever the revisions add
    up to by then, and clears the revisions when it is zero.  The one
    case without a result is the panic on growing an empty list of
    revisions, before anything is written. *)
Theorem adjustPercentage_only_revisions (goal : Z)
    (cr : ConfigurationRollout) :
  match adjustPercentage goal cr with
  | Some cr' =>
      ConfigurationName cr' = ConfigurationName cr /\
      Tag cr' = Tag cr /\
      Percent cr' = Percent cr /\
      Deadline cr' = Deadline cr /\
      StartTime cr' = StartTime cr /\
      NextStepTime cr' = NextStepTime cr /\
      StepDuration cr' = StepDuration cr /\
      StepSize cr' = StepSize cr /\
      (Percent cr <> 0 -> adjustPercentage (Percent cr) cr' = Some cr') /\
      (Percent cr = 0 ->
       adjustPercentage (Percent cr) cr' = Some (setRevisions cr' []))
  | None => goal <> 0 /\ Percent cr < goal /\ Revisions cr = []
  end.
Proof.
  destruct (adjustPercentage goal cr) as [cr'|] eqn:Hadj.
  - pose proof (adjustPercentage_frame _ _ _ Hadj) as Hframe.
    assert (Hp : Percent cr' = Percent cr) by (rewrite Hframe; reflexivity).
    repeat split; try (rewrite Hframe; reflexivity).
    + intros Hne. rewrite <- Hp. apply adjustPercentage_same. congruence.
    + intros ->. reflexivity.
  - apply adjustPercentage_None. assumption.
Qed.

Lemma adjustPercentage_only_revisions_witness :
  let cr := target "c" "" 50 [revision "a" 40; revision "b" 10] in
  let cr' := setRevisions cr [revision "a" 40; revision "b" 30] in
  adjustPercentage 70 cr = Some cr' /\
  Percent cr' = Percent cr /\
  adjustPercentage (Percent cr) cr' = Some cr'.
Proof.
  cbv zeta.
  pose proof (adjustPercentage_only_revisions 70
                (target "c" "" 50 [revision "a" 40; revision "b" 10])) as H.
  cbv beta iota delta [adjustPercentage] in H. cbn in H.
  destruct H as (_ & _ & Hp & _ & _ & _ & _ & _ & Hsame & _).
  split; [reflexivity|]. split; [exact Hp | apply Hsame; discriminate].
Defined.

(** ** A new revision in [stepConfig] *)

(** C8, as stated, fails: a goal of 0% clears the revisions of [prev],
    and [stepConfig] then returns the goal as it is; no rollout starts,
    [StartTime] stays zero and the desired revision keeps its 0%.  And
    when the goal has another percentage than [prev], the point is taken
    after the redistribution: from 100% to a goal of 50% the previous
    revision is left with 49%, not 99%. *)
Lemma stepConfig_zero_goal_starts_nothing :
  let goal := target "c" "" 0 [revision "rev-2" 0] in
  let half := target "c" "" 50 [revision "rev-2" 50] in
  let prev := target "c" "" 100 [revision "rev-1" 100] in
  Rev.RevisionName (revision "rev-2" 0) <> Rev.RevisionName (revision "rev-1" 100)
  /\ stepConfig goal prev 7 = Some goal
  /\ StartTime goal = 0
  /\ Revisions goal = [revision "rev-2" 0]
  /\ stepConfig half prev 7
     = Some (mkConfigurationRollout "c" "" 50
               [revision "rev-1" 49; revision "rev-2" 1] 0 7 0 0 0).
Proof. cbv zeta. repeat split. discriminate. Qed.

Lemma last_name (l l' : list RevisionRollout)
    (older : list RevisionRollout) (newest : RevisionRollout) :
  map Rev.RevisionName l' = map Rev.RevisionName l ->
  l = older ++ [newest] ->
  exists older' newest',
    l' = older' ++ [newest'] /\ length older' = length older /\
    Rev.RevisionName newest' = Rev.RevisionName newest.
Proof.
  intros Hmap ->.
  destruct l' as [|newest' older'] using rev_ind.
  - rewrite map_app in Hmap. simpl in Hmap.
    destruct (map Rev.RevisionName older); discriminate.
  - exists older', newest'. rewrite !map_app in Hmap. simpl in Hmap.
    apply app_inj_tail in Hmap. destruct Hmap as [Hm Hn].
    repeat split; [|assumption].
    rewrite <- (length_map Rev.RevisionName older'), Hm, length_map.
    reflexivity.
Qed.

(** C8, amended.  Let [goal] have the one revision [goal0] and a
    percentage other than zero, let the newest revision of a non-empty
    [prev] have another name, and let the redistribution of [prev] to
    [goal.Percent] drop no revision.  Then [stepConfig] returns a target
    with [StartTime = nowTS] whose revisions are those of the
    redistributed [prev], one point taken from the newest of them with a
    percentage above zero (none when there is no such revision), the
    ones at zero dropped, followed by [goal0] at 1%; [Deadline],
    [NextStepTime], [StepDuration] and [StepSize] are zero. *)
Theorem stepConfig_new_revision (goal prev adj : ConfigurationRollout)
    (nowTS : Z) (goal0 newest : RevisionRollout)
    (older : list RevisionRollout) :
  Revisions goal = [goal0] ->
  Percent goal <> 0 ->
  Revisions prev = older ++ [newest] ->
  Rev.RevisionName goal0 <> Rev.RevisionName newest ->
  adjustPercentage (Percent goal) prev = Some adj ->
  length (Revisions adj) = length (Revisions prev) ->
  stepConfig goal prev nowTS =
  Some (mkConfigurationRollout (ConfigurationName goal) (Tag goal)
          (Percent goal)
          (nonZero (rev (stealFrom (rev (Revisions adj))))
           ++ [Rev.setPercent goal0 1])
          0 nowTS 0 0 0).
Proof.
  intros Hg Hp Hprev Hname Hadj Hlen.
  pose proof (adjustPercentage_names _ _ _ Hadj Hlen) as Hnames.
  destruct (last_name _ _ _ _ Hnames Hprev)
    as (older' & newest' & Hadj' & Hlen' & Hname').
  unfold stepConfig. cbv zeta.
  assert (Hpc : length (Revisions prev) = S (length older)).
  { rewrite Hprev, length_app. simpl. lia. }
  rewrite Hpc. cbn [Nat.ltb Nat.leb]. rewrite Hadj, Hlen, Hpc.
  cbn [Nat.eqb]. rewrite Hg. cbn [nth_error].
  replace (S (length older) - 1)%nat with (length older') by lia.
  rewrite Hadj', nth_error_app2, Nat.sub_diag by lia. cbn [nth_error].
  rewrite Hname'.
  destruct (String.eqb_spec (Rev.RevisionName goal0)
              (Rev.RevisionName newest)); [contradiction|].
  rewrite <- Hadj', <- Hpc, <- Hlen, stealLoop_all. reflexivity.
Qed.

Lemma stepConfig_new_revision_witness :
  stepConfig (target "c" "" 100 [revision "rev-2" 100])
             (target "c" "" 100 [revision "rev-1" 100]) 7
  = Some (mkConfigurationRollout "c" "" 100
            [revision "rev-1" 99; revision "rev-2" 1] 0 7 0 0 0).
Proof.
  apply (stepConfig_new_revision
           (target "c" "" 100 [revision "rev-2" 100])
           (target "c" "" 100 [revision "rev-1" 100])
           (target "c" "" 100 [revision "rev-1" 100])
           7 (revision "rev-2" 100) (revision "rev-1" 100) []).
  - reflexivity.
  - discriminate.
  - reflexivity.
  - discriminate.
  - reflexivity.
  - reflexivity.
Defined.

(** ** [Step] *)

Lemma stepRevisions_Tag (cr : ConfigurationRollout) (nowTS : Z) :
  Tag (stepRevisions cr nowTS) = Tag cr.
Proof.
  destruct (stepRevisions_cases cr nowTS)
    as [->|(older & newest & _ & _ & _ & ->)]; reflexivity.
Qed.

Lemma stepConfig_Tag (goal prev ret : ConfigurationRollout) (nowTS : Z) :
  stepConfig goal prev nowTS = Some ret -> Tag ret = Tag goal.
Proof.
  unfold stepConfig. cbv zeta.
  destruct (if (0 <? length (Revisions prev))%nat
            then adjustPercentage (Percent goal) prev
            else Some prev) as [adj|]; [|discriminate].
  destruct (length (Revisions adj) =? 0)%nat; [intros [= <-]; reflexivity|].
  destruct (nth_error (Revisions goal) 0) as [goal0|]; [|discriminate].
  destruct (nth_error (Revisions adj) _) as [newest|]; [|discriminate].
  destruct (String.eqb _ _); intros [= <-]; [|reflexivity].
  rewrite stepRevisions_Tag. reflexivity.
Qed.

Lemma In_option_cons {A : Type} (x : A) (o : option (list A)) (l : list A) :
  option_map (cons x) o = Some l ->
  exists tl, o = Some tl /\ l = x :: tl.
Proof. destruct o as [tl|]; [intros [= <-]; eauto | discriminate]. Qed.

(** Whatever the intersect loop emits carries the tag of one of the
    current configurations it was given. *)
Lemma mergeConfigs_Tag (nowTS : Z) (ccfgs : list ConfigurationRollout) :
  forall (pcfgs out : list ConfigurationRollout),
    mergeConfigs nowTS ccfgs pcfgs = Some out ->
    forall c, In c out -> exists g, In g ccfgs /\ Tag c = Tag g.
Proof.
  induction ccfgs as [|c0 ctl IH]; intros pcfgs.
  - intros out [= <-] c [].
  - induction pcfgs as [|p ptl IHp]; intros out Hm c Hin; cbn in Hm.
    + apply In_option_cons in Hm. destruct Hm as (tl & Hm & ->).
      destruct Hin as [<-|Hin]; [exists c0; split; [left|]; reflexivity|].
      destruct (IH _ _ Hm _ Hin) as (g & Hg & Ht). exists g. split; [right|]; auto.
    + destruct (String.eqb (ConfigurationName c0) (ConfigurationName p)).
      * destruct (Percent c0 >? 1).
        -- destruct (stepConfig c0 p nowTS) as [r|] eqn:Hs; [|discriminate].
           apply In_option_cons in Hm. destruct Hm as (tl & Hm & ->).
           destruct Hin as [<-|Hin].
           ++ exists c0. split; [left; reflexivity|].
              eapply stepConfig_Tag; eauto.
           ++ destruct (IH _ _ Hm _ Hin) as (g & Hg & Ht).
              exists g. split; [right|]; auto.
        -- destruct (Percent c0 =? 1).
           ++ apply In_option_cons in Hm. destruct Hm as (tl & Hm & ->).
              destruct Hin as [<-|Hin];
                [exists c0; split; [left|]; reflexivity|].
              destruct (IH _ _ Hm _ Hin) as (g & Hg & Ht).
              exists g. split; [right|]; auto.
           ++ destruct (IH _ _ Hm _ Hin) as (g & Hg & Ht).
              exists g. split; [right|]; auto.
      * destruct (String.ltb (ConfigurationName c0) (ConfigurationName p)).
        -- destruct (negb (Percent c0 =? 0)).
           ++ apply In_option_cons in Hm. destruct Hm as (tl & Hm & ->).
              destruct Hin as [<-|Hin];
                [exists c0; split; [left|]; reflexivity|].
              destruct (IH _ _ Hm _ Hin) as (g & Hg & Ht).
              exists g. split; [right|]; auto.
           ++ destruct (IH _ _ Hm _ Hin) as (g & Hg & Ht).
              exists g. split; [right|]; auto.
        -- eapply IHp; eauto.
Qed.

Lemma byTag_In (t : string) (cs : list ConfigurationRollout)
    (c : ConfigurationRollout) :
  In c (byTag t cs) <-> In c cs /\ Tag c = t.
Proof.
  unfold byTag. rewrite filter_In, String.eqb_eq. reflexivity.
Qed.

Lemma stepTag_Tag (nowTS : Z) (cur prev : list ConfigurationRollout)
    (t : string) (out : list ConfigurationRollout) :
  stepTag nowTS cur prev t = Some out ->
  forall c, In c out -> Tag c = t.
Proof.
  unfold stepTag. destruct (hasTag t prev).
  - intros Hm c Hin.
    destruct (mergeConfigs_Tag _ _ _ _ Hm _ Hin) as (g & Hg & ->).
    apply byTag_In in Hg. tauto.
  - destruct (byTag t cur) as [|c0 rest] eqn:E; [discriminate|].
    intros [= <-] c [<-|[]].
    assert (In c0 (byTag t cur)) by (rewrite E; left; reflexivity).
    apply byTag_In in H. tauto.
Qed.

Lemma stepTags_In (nowTS : Z) (cur prev : list ConfigurationRollout)
    (tags : list string) :
  forall ret : list ConfigurationRollout,
    stepTags nowTS cur prev tags = Some ret ->
    forall c,
      In c ret <->
      exists t here,
        In t tags /\ stepTag nowTS cur prev t = Some here /\ In c here.
Proof.
  induction tags as [|t rest IH]; intros ret; simpl.
  - intros [= <-] c. split; [intros [] | intros (? & ? & [] & _)].
  - destruct (stepTag nowTS cur prev t) as [here|] eqn:Ht; [|discriminate].
    destruct (stepTags nowTS cur prev rest) as [more|]; [|discriminate].
    intros [= <-] c. rewrite in_app_iff, (IH more eq_refl c). split.
    + intros [Hin|(t' & here' & Hin & Hs & Hc)].
      * exists t, here. auto.
      * exists t', here'. auto.
    + intros (t' & here' & [<-|Hin] & Hs & Hc).
      * left. congruence.
      * right. exists t', here'. auto.
Qed.

Lemma insertConfig_In (x c : ConfigurationRollout)
    (l : list ConfigurationRollout) :
  In c (insertConfig x l) <-> c = x \/ In c l.
Proof.
  induction l as [|y tl IH]; simpl.
  - intuition congruence.
  - destruct (less x y); simpl; [intuition congruence|].
    rewrite IH. intuition congruence.
Qed.

(** Sorting keeps the configurations. *)
Lemma sortRollout_In (c : ConfigurationRollout)
    (l : list ConfigurationRollout) :
  In c (sortRollout l) <-> In c l.
Proof.
  induction l as [|x tl IH]; simpl; [reflexivity|].
  rewrite insertConfig_In, IH. intuition congruence.
Qed.

(** C6, as stated, fails: of two configurations carrying a tag that
    [prev] does not have, the first one alone is carried over. *)
Lemma Step_new_tag_drops_second :
  let a := target "a" "t" 50 [revision "r" 50] in
  let b := target "b" "t" 50 [revision "r" 50] in
  let cur := mkRollout [a; b] in
  let prev := mkRollout [target "x" "" 100 [revision "r1" 100]] in
  hasTag "t" (Configurations prev) = false /\
  In b (Configurations cur) /\
  Step cur (Some prev) 3 = Some (mkRollout [a]) /\
  ~ In b [a].
Proof.
  cbv zeta. split; [reflexivity|]. split; [right; left; reflexivity|].
  split; [reflexivity|].
  intros [H|[]]. discriminate.
Qed.

(** C6, amended.  Let [prev] be non-empty and let [tags] be the order in
    which the tags of [cur] are visited.  For a tag of [cur] that [prev]
    does not have, the first configuration of [cur] carrying it appears
    unchanged in the returned rollout, and it is the only configuration
    of the result with that tag. *)
Theorem Step_new_tag_first_only (tags : list string) (cur prev out : Rollout)
    (nowTS : Z) (t : string) (c0 : ConfigurationRollout)
    (rest : list ConfigurationRollout) :
  Configurations prev <> [] ->
  (forall t', In t' tags <-> In t' (map Tag (Configurations cur))) ->
  hasTag t (Configurations prev) = false ->
  byTag t (Configurations cur) = c0 :: rest ->
  StepWith tags cur (Some prev) nowTS = Some out ->
  forall c : ConfigurationRollout,
    Tag c = t -> (In c (Configurations out) <-> c = c0).
Proof.
  intros Hprev Htags Hnew Hcur Hstep c Hc.
  unfold StepWith in Hstep.
  destruct (Nat.eqb_spec (length (Configurations prev)) 0) as [Hz|_].
  { destruct (Configurations prev); [congruence|discriminate]. }
  destruct (stepTags nowTS (Configurations cur) (Configurations prev) tags)
    as [ret|] eqn:Hret; [|discriminate].
  injection Hstep as <-. cbn [Configurations].
  rewrite sortRollout_In, (stepTags_In _ _ _ _ _ Hret).
  assert (Hfirst : stepTag nowTS (Configurations cur) (Configurations prev) t
                   = Some [c0]).
  { unfold stepTag. rewrite Hnew, Hcur. reflexivity. }
  assert (Hin0 : In c0 (Configurations cur) /\ Tag c0 = t).
  { apply byTag_In. rewrite Hcur. left. reflexivity. }
  split.
  - intros (t' & here & Hin & Hs & Hc').
    pose proof (stepTag_Tag _ _ _ _ _ Hs _ Hc') as Ht'.
    assert (Et : t' = t) by congruence. clear Ht'. subst t'.
    rewrite Hfirst in Hs. injection Hs as <-.
    destruct Hc' as [->|[]]. reflexivity.
  - intros ->. exists t, [c0]. split; [|split; [assumption|left; reflexivity]].
    apply Htags. apply in_map_iff. exists c0. tauto.
Qed.

Lemma Step_new_tag_first_only_witness :
  let a := target "a" "t" 50 [revision "r" 50] in
  let b := target "b" "t" 50 [revision "r" 50] in
  let cur := mkRollout [a; b] in
  let prev := mkRollout [target "x" "" 100 [revision "r1" 100]] in
  let out := mkRollout [a] in
  StepWith ["t"%string] cur (Some prev) 0 = Some out /\
  In a (Configurations out) /\
  ~ In b (Configurations out).
Proof.
  cbv zeta.
  pose proof (Step_new_tag_first_only ["t"%string]
                (mkRollout [target "a" "t" 50 [revision "r" 50];
                            target "b" "t" 50 [revision "r" 50]])
                (mkRollout [target "x" "" 100 [revision "r1" 100]])
                (mkRollout [target "a" "t" 50 [revision "r" 50]])
                0 "t" (target "a" "t" 50 [revision "r" 50])
                [target "b" "t" 50 [revision "r" 50]]) as H.
  assert (Hprev : Configurations
                    (mkRollout [target "x" "" 100 [revision "r1" 100]]) <> [])
    by discriminate.
  assert (Htags : forall t' : string,
             In t' ["t"%string] <->
             In t' (map Tag (Configurations
                (mkRollout [target "a" "t" 50 [revision "r" 50];
                            target "b" "t" 50 [revision "r" 50]])))).
  { intros t'. simpl. tauto. }
  specialize (H Hprev Htags eq_refl eq_refl eq_refl).
  split; [reflexivity|]. split.
  - apply (proj2 (H (target "a" "t" 50 [revision "r" 50]) eq_refl)).
    reflexivity.
  - intros Hb.
    apply (proj1 (H (target "b" "t" 50 [revision "r" 50]) eq_refl)) in Hb.
    discriminate.
Defined.

(** Once the previous configurations are exhausted, the loop copies
    every remaining current configuration, whatever its percentage. *)
Lemma mergeConfigs_exhausted (nowTS : Z) (ccfgs : list ConfigurationRollout) :
  mergeConfigs nowTS ccfgs [] = Some ccfgs.
Proof.
  induction ccfgs as [|c ctl IH]; [reflexivity|].
  cbn. rewrite IH. reflexivity.
Qed.

(** A current configuration whose name sorts before the previous one is
    kept when it has traffic and dropped when it has none. *)
Lemma mergeConfigs_before (nowTS : Z) (c p : ConfigurationRollout)
    (ctl ptl : list ConfigurationRollout) :
  String.eqb (ConfigurationName c) (ConfigurationName p) = false ->
  String.ltb (ConfigurationName c) (ConfigurationName p) = true ->
  mergeConfigs nowTS (c :: ctl) (p :: ptl) =
  if Percent c =? 0 then mergeConfigs nowTS ctl (p :: ptl)
  else option_map (cons c) (mergeConfigs nowTS ctl (p :: ptl)).
Proof.
  intros Hne Hlt. cbn. rewrite Hne, Hlt.
  destruct (Percent c =? 0); reflexivity.
Qed.

(** C7, at the input where the code departs from it.  The configuration
    b of [cur] has no traffic and no counterpart in the valid [prev]; its
    name sorts after the one name of [prev], so the loop reaches it with
    [j >= len(pcfgs)] and copies it to the result.  Against a [prev]
    whose name sorts after b, the same configuration is dropped. *)
Theorem Step_copies_trailing_zero_percent :
  let b := target "b" "" 0 [revision "r" 0] in
  let cur := mkRollout [b] in
  let prev := mkRollout [target "a" "" 100 [revision "r1" 100]] in
  forall nowTS : Z,
    Percent b = 0 /\
    Validate prev = true /\
    Step cur (Some prev) nowTS = Some (mkRollout [b]) /\
    Step cur (Some (mkRollout [target "c" "" 100 [revision "r1" 100]])) nowTS
    = Some (mkRollout []).
Proof. cbv zeta. intros nowTS. repeat split. Qed.

(** ** Integers in float64

    The integers below 2^53 are float64 values, and their sums and
    products are computed exactly as long as they stay below 2^53. *)

Lemma digits2_size (p : positive) : digits2_pos p = Pos.size p.
Proof. induction p; simpl; congruence. Qed.

Lemma Zpos_iter_xO (c n : positive) :
  Zpos (Pos.iter xO c n) = Zpos c * 2 ^ Zpos n.
Proof.
  change (Pos.iter xO c n) with (shift_pos n c).
  rewrite shift_pos_correct, Zpower_pos_nat, Zpower_nat_Z, positive_nat_Z. lia.
Qed.

Lemma size_bounds (p : positive) :
  2 ^ (Zpos (Pos.size p) - 1) <= Zpos p < 2 ^ Zpos (Pos.size p).
Proof.
  pose proof (Pos.size_gt p) as Hgt. pose proof (Pos.size_le p) as Hle.
  apply Pos2Z.pos_lt_pos in Hgt. apply Pos2Z.pos_le_pos in Hle.
  rewrite Pos2Z.inj_pow in Hgt, Hle.
  split; [|exact Hgt].
  replace (Zpos (Pos.size p)) with (Z.succ (Zpos (Pos.size p) - 1)) in Hle by lia.
  rewrite Z.pow_succ_r in Hle by lia. lia.
Qed.

Lemma size_unique (p : positive) (d : Z) :
  2 ^ (d - 1) <= Zpos p < 2 ^ d -> Zpos (Pos.size p) = d.
Proof.
  intros [Hlo Hhi]. destruct (size_bounds p) as [Slo Shi].
  assert (0 < d).
  { destruct (Z.ltb_spec 0 d); [assumption|].
    assert (2 ^ d <= 2 ^ 0) by (apply Z.pow_le_mono_r; lia).
    change (2 ^ 0) with 1 in *. lia. }
  destruct (Z.lt_trichotomy (Zpos (Pos.size p)) d) as [L|[E|G]]; [|assumption|].
  - assert (2 ^ Zpos (Pos.size p) <= 2 ^ (d - 1)) by (apply Z.pow_le_mono_r; lia). lia.
  - assert (2 ^ d <= 2 ^ (Zpos (Pos.size p) - 1)) by (apply Z.pow_le_mono_r; lia). lia.
Qed.

Lemma size_iter_xO (c n : positive) :
  Zpos (Pos.size (Pos.iter xO c n)) = Zpos (Pos.size c) + Zpos n.
Proof.
  apply size_unique. rewrite Zpos_iter_xO.
  destruct (size_bounds c) as [Slo Shi].
  replace (Zpos (Pos.size c) + Zpos n - 1) with ((Zpos (Pos.size c) - 1) + Zpos n) by lia.
  rewrite !Z.pow_add_r by lia.
  assert (0 < 2 ^ Zpos n) by (apply Z.pow_pos_nonneg; lia).
  split; nia.
Qed.

Lemma iter_shr_1 (n : positive) :
  forall c : positive,
    iter_pos shr_1 n (Build_shr_record (Zpos (Pos.iter xO c n)) false false)
    = Build_shr_record (Zpos c) false false.
Proof.
  induction n as [n IH|n IH|]; intros c; simpl.
  - rewrite IH, IH. reflexivity.
  - rewrite IH, IH. reflexivity.
  - reflexivity.
Qed.

(** Rounding a mantissa of 53 digits followed by zeros. *)
Lemma round_aux_53 (s : bool) (c : positive) (e : Z) :
  Zpos (Pos.size c) = 53 -> -1074 <= e <= 971 ->
  binary_round_aux prec emax s (Zpos c) e loc_Exact = S754_finite s c e.
Proof.
  intros Hc He. unfold binary_round_aux, shr_fexp.
  cbn [Zdigits2 shr_record_of_loc]. rewrite digits2_size, Hc.
  unfold fexp, SpecFloat.emin, prec, emax.
  replace (Z.max (53 + e - 53) (3 - 1024 - 53) - e) with 0 by lia.
  cbn [shr shr_m loc_of_shr_record round_nearest_even Zdigits2].
  rewrite digits2_size, Hc.
  replace (Z.max (53 + e - 53) (3 - 1024 - 53) - e) with 0 by lia.
  cbn [shr shr_m].
  destruct (Z.leb_spec e (1024 - 53)); [reflexivity|lia].
Qed.

Lemma round_aux_shifted (s : bool) (c n : positive) (e : Z) :
  Zpos (Pos.size c) = 53 -> -1074 <= e + Zpos n <= 971 ->
  binary_round_aux prec emax s (Zpos (Pos.iter xO c n)) e loc_Exact
  = S754_finite s c (e + Zpos n).
Proof.
  intros Hc He. unfold binary_round_aux, shr_fexp.
  cbn [Zdigits2 shr_record_of_loc]. rewrite digits2_size, size_iter_xO, Hc.
  unfold fexp, SpecFloat.emin, prec, emax.
  replace (Z.max (53 + Zpos n + e - 53) (3 - 1024 - 53) - e) with (Zpos n) by lia.
  cbn [shr]. rewrite iter_shr_1.
  cbn [shr_m loc_of_shr_record round_nearest_even Zdigits2].
  rewrite digits2_size, Hc.
  replace (Z.max (53 + (e + Zpos n) - 53) (3 - 1024 - 53) - (e + Zpos n)) with 0 by lia.
  cbn [shr shr_m].
  destruct (Z.leb_spec (e + Zpos n) (1024 - 53)); [reflexivity|lia].
Qed.

Lemma Zpos_norm (a : positive) :
  Zpos (Pos.size a) <= 53 ->
  Zpos (norm a) = Zpos a * 2 ^ (53 - Zpos (Pos.size a)).
Proof.
  intros H. unfold norm. rewrite Z2Pos.id; [reflexivity|].
  assert (0 < 2 ^ (53 - Zpos (Pos.size a))) by (apply Z.pow_pos_nonneg; lia).
  lia.
Qed.

Lemma size_mul_pow2 (a : positive) (k : Z) (M : positive) :
  0 <= k -> Zpos M = Zpos a * 2 ^ k ->
  Zpos (Pos.size M) = Zpos (Pos.size a) + k.
Proof.
  intros Hk HM. apply size_unique. rewrite HM.
  destruct (size_bounds a) as [Slo Shi].
  replace (Zpos (Pos.size a) + k - 1) with ((Zpos (Pos.size a) - 1) + k) by lia.
  rewrite !Z.pow_add_r by lia.
  assert (0 < 2 ^ k) by (apply Z.pow_pos_nonneg; lia).
  split; nia.
Qed.

Lemma size_norm (a : positive) :
  Zpos (Pos.size a) <= 53 -> Zpos (Pos.size (norm a)) = 53.
Proof.
  intros H. rewrite (size_mul_pow2 a (53 - Zpos (Pos.size a))); [lia|lia|].
  apply Zpos_norm. assumption.
Qed.

(** Rounding a mantissa that holds the integer [a] exactly. *)
Lemma round_aux_int (s : bool) (M a : positive) (E : Z) :
  Zpos M = Zpos a * 2 ^ (- E) ->
  E <= 0 ->
  Zpos (Pos.size a) <= 53 ->
  E <= Zpos (Pos.size a) - 53 ->
  binary_round_aux prec emax s (Zpos M) E loc_Exact = canonical s a.
Proof.
  intros HM HE Ha Hn. unfold canonical.
  pose proof (size_norm a Ha) as Hs. pose proof (Zpos_norm a Ha) as Hv.
  destruct (Z.eq_dec E (Zpos (Pos.size a) - 53)) as [Eq|Ne].
  - assert (M = norm a).
    { apply Pos2Z.inj. rewrite HM, Hv. f_equal. f_equal. lia. }
    subst M. rewrite <- Eq. apply round_aux_53; [assumption|lia].
  - remember (Z.to_pos (Zpos (Pos.size a) - 53 - E)) as n eqn:Hn'.
    assert (Hnz : Zpos n = Zpos (Pos.size a) - 53 - E).
    { subst n. rewrite Z2Pos.id; lia. }
    assert (M = Pos.iter xO (norm a) n).
    { apply Pos2Z.inj. rewrite Zpos_iter_xO, HM, Hv, Hnz, <- Z.mul_assoc.
      rewrite <- Z.pow_add_r by lia. f_equal. f_equal. lia. }
    subst M. rewrite round_aux_shifted; [f_equal; lia | assumption | lia].
Qed.

Lemma round_int (s : bool) (M a : positive) (E : Z) :
  Zpos M = Zpos a * 2 ^ (- E) ->
  E <= 0 ->
  Zpos (Pos.size a) <= 53 ->
  binary_round prec emax s M E = canonical s a.
Proof.
  intros HM HE Ha. unfold binary_round.
  rewrite digits2_size, (size_mul_pow2 a (- E) M) by (lia || assumption).
  unfold fexp, SpecFloat.emin, prec, emax.
  replace (Z.max (Zpos (Pos.size a) + - E + E - 53) (3 - 1024 - 53))
    with (Zpos (Pos.size a) - 53) by lia.
  unfold shl_align.
  destruct (Zpos (Pos.size a) - 53 - E) as [|n|d] eqn:Hd.
  - apply round_aux_int; auto; lia.
  - apply round_aux_int; auto; lia.
  - assert (Hc : Zpos (Pos.iter xO M d) = Zpos (norm a)).
    { rewrite Zpos_iter_xO, HM, Zpos_norm, <- Z.mul_assoc by assumption.
      rewrite <- Z.pow_add_r by lia. f_equal. f_equal. lia. }
    apply Pos2Z.inj in Hc. rewrite Hc.
    unfold canonical. apply round_aux_53; [apply size_norm; assumption|lia].
Qed.

Lemma ofInt_pos (a : positive) :
  Zpos (Pos.size a) <= 53 -> ofInt (Zpos a) = canonical false a.
Proof.
  intros Ha. unfold ofInt, binary_normalize.
  apply round_int; [simpl; lia | lia | assumption].
Qed.

Lemma ofInt_neg (a : positive) :
  Zpos (Pos.size a) <= 53 -> ofInt (Zneg a) = canonical true a.
Proof.
  intros Ha. unfold ofInt, binary_normalize.
  apply round_int; [simpl; lia | lia | assumption].
Qed.

Lemma size_le_53 (a : positive) : Zpos a < 2 ^ 53 -> Zpos (Pos.size a) <= 53.
Proof.
  intros H. destruct (size_bounds a) as [Slo _].
  destruct (Z.leb_spec (Zpos (Pos.size a)) 53); [assumption|].
  assert (2 ^ 53 <= 2 ^ (Zpos (Pos.size a) - 1)) by (apply Z.pow_le_mono_r; lia).
  lia.
Qed.










(** [Ceil] of an integer is that integer. *)
Lemma Ceil_canonical (a : positive) :
  Zpos a < 2 ^ 53 -> Ceil (canonical false a) = canonical false a.
Proof.
  intros H. pose proof (size_le_53 a H) as Ha.
  unfold Ceil, canonical at 1. cbn [SFopp negb Floor floorZ cond_Zopp].
  assert (E : Z.shiftl (- Zpos (norm a)) (Zpos (Pos.size a) - 53) = Zneg a).
  { rewrite Zpos_norm by assumption.
    rewrite <- Z.mul_opp_l, <- Z.shiftl_mul_pow2 by lia.
    rewrite Z.shiftl_shiftl by lia.
    replace (53 - Zpos (Pos.size a) + (Zpos (Pos.size a) - 53)) with 0 by lia.
    apply Z.shiftl_0_r. }
  rewrite E, ofInt_neg by assumption. reflexivity.
Qed.

(** [Max] of one and a positive integer. *)
Lemma Max_one_canonical (a : positive) :
  Max (ofInt 1) (canonical false a) = canonical false a.
Proof.
  unfold Max, canonical. change (ofInt 1) with (S754_finite false 4503599627370496 (-52)).
  cbn [isPosInf isNaN orb SFeqb SFcompare andb SFltb].
  destruct (Z.compare_spec (Zpos (Pos.size a) - 53) (-52)) as [E|L|G];
    try reflexivity.
  - destruct (Pos.compare_cont Eq (norm a) 4503599627370496) eqn:C;
      try reflexivity.
    assert (Pos.size a = 1%positive) by lia.
    destruct a; simpl in H; try (destruct (Pos.size a); discriminate).
    discriminate.
  - lia.
Qed.

(** ** [computeProperties] *)




(** ** [ObserveReady] *)

(** C4, as stated, fails: [nowTS - StartTime] is read as a number of
    nanoseconds, so a difference of 5 is 5 ns, which rounds up to a
    minimal step of one second, not five; the cadence computed from it
    is the one of one second. *)
Lemma ObserveReady_five_is_one_second :
  let c := mkConfigurationRollout "c" "" 100
             [revision "r1" 99; revision "r2" 1] 0 1000 0 0 0 in
  1005 - StartTime c = 5 /\
  minStepSecOf 1005 (StartTime c) = ofInt 1 /\
  ofInt 1 <> ofInt 5 /\
  ObserveReady (mkRollout [c]) 1005
  = mkRollout [computeProperties c (ofInt 1005) (ofInt 1) durationSecs] /\
  computeProperties c (ofInt 1005) (ofInt 1) durationSecs
  <> computeProperties c (ofInt 1005) (ofInt 5) durationSecs.
Proof.
  cbv zeta. repeat split; try float_eval;
    vm_compute; discriminate.
Qed.

Lemma Seconds_whole (k : Z) :
  1 <= k < 2 ^ 53 -> Seconds (k * Second) = ofInt k.
Proof.
  intros Hk. unfold Seconds. cbv zeta.
  rewrite Z.quot_mul, Z.rem_mul by discriminate.
  destruct k as [|a|a]; try lia.
  rewrite ofInt_pos by (apply size_le_53; lia). reflexivity.
Qed.

Lemma minStepSecOf_whole (nowTS startTime k : Z) :
  1 <= k < 2 ^ 53 ->
  nowTS - startTime = k * Second ->
  minStepSecOf nowTS startTime = ofInt k.
Proof.
  intros Hk Hd. unfold minStepSecOf. rewrite Hd, Seconds_whole by assumption.
  destruct k as [|a|a]; try lia.
  rewrite (ofInt_pos a) by (apply size_le_53; lia).
  rewrite Ceil_canonical by lia. apply Max_one_canonical.
Qed.

(** C4, amended.  [ObserveReady] replaces each target with
    [StartTime > 0] and [StepDuration == 0] by the result of the cadence
    calculator for [minStepSec = max(1, ceil(d.Seconds()))], where
    [d = nowTS - StartTime] is read as a number of nanoseconds, and
    leaves the other targets as they are.  For [nowTS - StartTime = 5]
    the minimal step is 1, and for a difference of [k] whole seconds,
    that is [k * 10^9] with [1 <= k < 2^53], it is [k]. *)
Theorem ObserveReady_minStepSec (cur : Rollout) (nowTS : Z) :
  (forall (i : nat) (c : ConfigurationRollout),
     nth_error (Configurations cur) i = Some c ->
     nth_error (Configurations (ObserveReady cur nowTS)) i =
     Some (if (StepDuration c =? 0) && (StartTime c >? 0)
           then computeProperties c (ofInt nowTS)
                  (Max (ofInt 1) (Ceil (Seconds (nowTS - StartTime c))))
                  durationSecs
           else c)) /\
  (forall startTime : Z,
     nowTS - startTime = 5 -> minStepSecOf nowTS startTime = ofInt 1) /\
  (forall startTime k : Z,
     1 <= k < 2 ^ 53 ->
     nowTS - startTime = k * Second ->
     minStepSecOf nowTS startTime = ofInt k).
Proof.
  split; [|split].
  - intros i c Hc. unfold ObserveReady. cbn [Configurations].
    rewrite nth_error_map, Hc. reflexivity.
  - intros startTime Hd. unfold minStepSecOf. rewrite Hd. float_eval.
  - intros startTime k. apply minStepSecOf_whole.
Qed.

Lemma ObserveReady_minStepSec_witness :
  minStepSecOf 1005 1000 = ofInt 1 /\
  minStepSecOf 5000001000 1000 = ofInt 5.
Proof.
  destruct (ObserveReady_minStepSec (mkRollout []) 1005) as (_ & Hfive & _).
  destruct (ObserveReady_minStepSec (mkRollout []) 5000001000)
    as (_ & _ & Hwhole).
  split.
  - apply Hfive. reflexivity.
  - apply (Hwhole 1000 5); [lia | reflexivity].
Defined.

(** * Further properties of the functions *)

(** ** Redistribution to a new percentage *)

Lemma allPositive_nonNegative (revs : list RevisionRollout) :
  allPositive revs -> nonNegative revs.
Proof. apply Forall_impl. intros r H. lia. Qed.


Lemma drainFrom_all (l : list RevisionRollout) :
  forall remaining : Z,
    allPositive l -> total l <= remaining -> drainFrom remaining l = [].
Proof.
  induction l as [|r tl IH]; intros remaining Hp Hr; simpl; [reflexivity|].
  inversion Hp as [|? ? Hr0 Htl]; subst. rewrite total_cons in Hr.
  pose proof (nonNegative_total tl (allPositive_nonNegative _ Htl)).
  destruct (Z.gtb_spec remaining 0); [|lia].
  destruct (Z.gtb_spec (Rev.Percent r) remaining); [lia|].
  apply IH; [assumption|lia].
Qed.


Lemma names_drainFrom (l : list RevisionRollout) :
  forall remaining : Z,
    exists k, names (drainFrom remaining l) = skipn k (names l).
Proof.
  induction l as [|r tl IH]; intros remaining; simpl.
  - exists 0%nat. reflexivity.
  - destruct (remaining >? 0); [|exists 0%nat; reflexivity].
    destruct (Rev.Percent r >? remaining); [exists 0%nat; reflexivity|].
    destruct (IH (remaining - Rev.Percent r)) as [k Hk].
    exists (S k). exact Hk.
Qed.

Lemma names_shrink (l : list RevisionRollout) :
  forall diff : Z, exists k, names (shrink diff l) = skipn k (names l).
Proof.
  induction l as [|r tl IH]; intros diff; simpl.
  - exists 0%nat. reflexivity.
  - destruct (diff >? 0); [|exists 0%nat; reflexivity].
    destruct (Rev.Percent r >? diff); [exists 0%nat; reflexivity|].
    destruct (IH (diff - Rev.Percent r)) as [k Hk].
    exists (S k). exact Hk.
Qed.

Lemma allPositive_shrink (revs : list RevisionRollout) :
  forall diff : Z, allPositive revs -> allPositive (shrink diff revs).
Proof.
  induction revs as [|r tl IH]; intros diff Hp; simpl; [constructor|].
  inversion Hp; subst.
  destruct (Z.gtb_spec diff 0); [|assumption].
  destruct (Z.gtb_spec (Rev.Percent r) diff).
  - constructor; [simpl; lia | assumption].
  - apply IH. assumption.
Qed.

(** X1.  On a configuration with at least one revision, whose percentages
    are not negative and add up to [Percent], [adjustPercentage] to a
    goal that is not negative does not panic.  The revisions it leaves
    add up to the goal and none is negative; at least one is left when
    the goal is positive, and none is at 0% if none was. *)
Theorem adjustPercentage_contract (goal : Z) (cr : ConfigurationRollout) :
  Revisions cr <> [] ->
  total (Revisions cr) = Percent cr ->
  nonNegative (Revisions cr) ->
  0 <= goal ->
  exists cr',
    adjustPercentage goal cr = Some cr' /\
    total (Revisions cr') = goal /\
    nonNegative (Revisions cr') /\
    (0 < goal -> Revisions cr' <> []) /\
    (allPositive (Revisions cr) -> allPositive (Revisions cr')).
Proof.
  intros Hne Hsum Hnn Hgoal.
  destruct (adjustPercentage goal cr) as [cr'|] eqn:Hadj.
  - exists cr'. split; [reflexivity|].
    pose proof (adjustPercentage_total _ _ _ Hsum Hgoal Hadj) as Ht.
    repeat split.
    + exact Ht.
    + eapply adjustPercentage_nonNegative; eauto.
    + intros Hpos E. rewrite E in Ht. change (total []) with 0 in Ht. lia.
    + intros Hp. rewrite adjustPercentage_view in Hadj.
      destruct (goal =? 0); [injection Hadj as <-; constructor|].
      destruct (Z.gtb_spec (goal - Percent cr) 0).
      * apply Forall_rev in Hp.
        destruct (rev (Revisions cr)) as [|newest older]; [discriminate|].
        injection Hadj as <-. simpl. inversion Hp; subst.
        apply Forall_app. split; [apply Forall_rev; assumption|].
        constructor; [simpl; lia|constructor].
      * destruct (goal - Percent cr <? 0); injection Hadj as <-; simpl; auto.
        apply allPositive_shrink. assumption.
  - apply adjustPercentage_None in Hadj. destruct Hadj as (_ & _ & E).
    contradiction.
Qed.

Lemma adjustPercentage_contract_witness :
  exists cr',
    adjustPercentage 5 (target "c" "" 50 [revision "a" 40; revision "b" 10])
    = Some cr' /\
    total (Revisions cr') = 5 /\
    nonNegative (Revisions cr') /\
    (0 < 5 -> Revisions cr' <> []) /\
    (allPositive [revision "a" 40; revision "b" 10] ->
     allPositive (Revisions cr')).
Proof.
  apply (adjustPercentage_contract 5
           (target "c" "" 50 [revision "a" 40; revision "b" 10])).
  - discriminate.
  - reflexivity.
  - nonneg.
  - lia.
Defined.

Lemma shrink_tail (l : list RevisionRollout) :
  forall diff : Z,
    exists k,
      names (shrink diff l) = skipn k (names l) /\
      tl (shrink diff l) = skipn (S k) l.
Proof.
  induction l as [|r rest IH]; intros diff; simpl.
  - exists 0%nat. split; reflexivity.
  - destruct (diff >? 0); [|exists 0%nat; split; reflexivity].
    destruct (Rev.Percent r >? diff); [exists 0%nat; split; reflexivity|].
    destruct (IH (diff - Rev.Percent r)) as (k & Hk1 & Hk2).
    exists (S k). split; assumption.
Qed.

(** X2.  [adjustPercentage] neither reorders nor renames revisions: the
    names it leaves are a suffix of the names it found.  When the goal is
    not 0 and not below [Percent], every name stays and only the newest
    revision changes; when the goal is lower, the revisions after the
    first one left are as they were. *)
Theorem adjustPercentage_order (goal : Z) (cr cr' : ConfigurationRollout) :
  adjustPercentage goal cr = Some cr' ->
  (exists k, names (Revisions cr') = skipn k (names (Revisions cr))) /\
  (goal <> 0 -> Percent cr <= goal ->
   names (Revisions cr') = names (Revisions cr) /\
   removelast (Revisions cr') = removelast (Revisions cr)) /\
  (goal <> 0 -> goal < Percent cr ->
   exists k, tl (Revisions cr') = skipn (S k) (Revisions cr)).
Proof.
  rewrite adjustPercentage_view.
  destruct (Z.eqb_spec goal 0) as [Hz|Hz].
  { intros [= <-]. simpl. split; [|split; intros; contradiction].
    exists (length (names (Revisions cr))). rewrite skipn_all. reflexivity. }
  destruct (Z.gtb_spec (goal - Percent cr) 0) as [Hd|Hd].
  - remember (rev (Revisions cr)) as rv eqn:Erv.
    assert (Hrv : Revisions cr = rev rv)
      by (subst rv; symmetry; apply rev_involutive).
    clear Erv. destruct rv as [|newest older]; [discriminate|].
    intros [= <-]. simpl in *. rewrite Hrv.
    assert (Hn : names (rev older ++ [Rev.setPercent newest
                   (Rev.Percent newest + (goal - Percent cr))])
                 = names (rev older ++ [newest])).
    { unfold names. rewrite !map_app. reflexivity. }
    split; [exists 0%nat; exact Hn|]. split; [|intros; lia].
    intros _ _. split; [exact Hn|].
    rewrite !removelast_last. reflexivity.
  - destruct (Z.ltb_spec (goal - Percent cr) 0) as [Hl|Hl];
      intros [= <-]; simpl.
    + destruct (shrink_tail (Revisions cr) (Percent cr - goal))
        as (k & Hk1 & Hk2).
      split; [exists k; exact Hk1|]. split; [intros; lia|].
      intros _ _. exists k. exact Hk2.
    + split; [exists 0%nat; reflexivity|]. split; [|intros; lia].
      intros _ _. split; reflexivity.
Qed.

Lemma adjustPercentage_order_witness :
  let cr := target "c" "" 50 [revision "a" 10; revision "b" 40] in
  exists k,
    names (Revisions (setRevisions cr [revision "b" 40]))
    = skipn k (names (Revisions cr)).
Proof.
  cbv zeta.
  apply (adjustPercentage_order 40
           (target "c" "" 50 [revision "a" 10; revision "b" 40])
           (setRevisions (target "c" "" 50 [revision "a" 10; revision "b" 40])
              [revision "b" 40])).
  reflexivity.
Defined.

(** ** Steps of a rollout *)





(** X5.  The revisions that survive a call of [stepRevisions] are the
    oldest ones, in their order, and the newest one stays last: the
    names after the call are a prefix of the names of the older
    revisions, followed by the name of the newest one. *)
Theorem stepRevisions_order (cr : ConfigurationRollout) (nowTS : Z) :
  exists k,
    (k <= length (Revisions cr) - 1)%nat /\
    names (Revisions (stepRevisions cr nowTS))
    = firstn k (names (Revisions cr))
      ++ skipn (length (Revisions cr) - 1) (names (Revisions cr)).
Proof.
  destruct (stepRevisions_cases cr nowTS)
    as [->|(older & newest & Hr & Hne & Hdue & E)].
  - exists (length (Revisions cr) - 1)%nat. split; [lia|].
    rewrite firstn_skipn. reflexivity.
  - rewrite E. cbn [Revisions setNextStepTime setRevisions].
    rewrite Hr, length_app. cbn [length].
    replace (length older + 1 - 1)%nat with (length older) by lia.
    destruct (names_drainFrom (rev older) (StepSize cr)) as [j Hj].
    unfold names in *. rewrite !map_app, map_rev, Hj, map_rev.
    set (L := map Rev.RevisionName older).
    assert (HL : length L = length older) by apply length_map.
    exists (length older - j)%nat. split; [lia|].
    rewrite skipn_rev, rev_involutive, HL.
    rewrite skipn_app, skipn_all2, HL, Nat.sub_diag by lia.
    rewrite firstn_app, HL.
    replace (length older - j - length older)%nat with 0%nat by lia.
    cbn [firstn skipn app map]. rewrite app_nil_r. reflexivity.
Qed.

(** ** Stepping one configuration *)

Lemma nonNegative_stealFrom (l : list RevisionRollout) :
  nonNegative l -> nonNegative (stealFrom l).
Proof.
  induction 1 as [|r tl Hr Htl IH]; simpl; [constructor|].
  destruct (Z.gtb_spec (Rev.Percent r) 0).
  - constructor; [simpl; lia | assumption].
  - constructor; assumption.
Qed.

Lemma allPositive_nonZero (l : list RevisionRollout) :
  nonNegative l -> allPositive (nonZero l).
Proof.
  induction 1 as [|r tl Hr Htl IH]; simpl; [constructor|].
  destruct (Z.eqb_spec (Rev.Percent r) 0); simpl; [assumption|].
  constructor; [lia | assumption].
Qed.

Lemma stepRevisions_frame (cr : ConfigurationRollout) (nowTS : Z) :
  ConfigurationName (stepRevisions cr nowTS) = ConfigurationName cr /\
  Tag (stepRevisions cr nowTS) = Tag cr /\
  Percent (stepRevisions cr nowTS) = Percent cr /\
  Deadline (stepRevisions cr nowTS) = Deadline cr /\
  StartTime (stepRevisions cr nowTS) = StartTime cr /\
  StepDuration (stepRevisions cr nowTS) = StepDuration cr /\
  StepSize (stepRevisions cr nowTS) = StepSize cr.
Proof.
  destruct (stepRevisions_cases cr nowTS)
    as [->|(older & newest & _ & _ & _ & ->)]; repeat split.
Qed.

(** The three outcomes of [stepConfig] when it returns. *)
Lemma stepConfig_cases (goal prev ret : ConfigurationRollout) (nowTS : Z) :
  stepConfig goal prev nowTS = Some ret ->
  (* nothing to roll from *)
  (ret = mkConfigurationRollout (ConfigurationName goal) (Tag goal)
           (Percent goal) (Revisions goal) 0 0 0 0 0 /\
   (Revisions prev = [] \/
    exists adj, adjustPercentage (Percent goal) prev = Some adj /\
                Revisions adj = [])) \/
  exists adj goal0 newest,
    Revisions prev <> [] /\
    adjustPercentage (Percent goal) prev = Some adj /\
    Revisions adj <> [] /\
    nth_error (Revisions goal) 0 = Some goal0 /\
    nth_error (Revisions adj) (length (Revisions prev) - 1) = Some newest /\
    ((Rev.RevisionName goal0 = Rev.RevisionName newest /\
      ret = stepRevisions
              (mkConfigurationRollout (ConfigurationName goal) (Tag goal)
                 (Percent goal) (Revisions adj) (Deadline adj) (StartTime adj)
                 (NextStepTime adj) (StepDuration adj) 0) nowTS) \/
     (Rev.RevisionName goal0 <> Rev.RevisionName newest /\
      ret = mkConfigurationRollout (ConfigurationName goal) (Tag goal)
              (Percent goal)
              (nonZero (rev (stealFrom (rev (Revisions adj))))
               ++ [Rev.setPercent goal0 1])
              0 nowTS 0 0 0)).
Proof.
  unfold stepConfig. cbv zeta.
  destruct (Nat.ltb_spec 0 (length (Revisions prev))) as [Hpc|Hpc].
  - destruct (adjustPercentage (Percent goal) prev) as [adj|] eqn:Hadj;
      [|discriminate].
    destruct (Nat.eqb_spec (length (Revisions adj)) 0) as [Hz|Hz].
    + intros [= <-]. left. split; [reflexivity|]. right. exists adj.
      split; [reflexivity|]. destruct (Revisions adj); [reflexivity|discriminate].
    + destruct (nth_error (Revisions goal) 0) as [goal0|] eqn:Hg;
        [|discriminate].
      destruct (nth_error (Revisions adj) _) as [newest|] eqn:Hn;
        [|discriminate].
      intros Hret. right. exists adj, goal0, newest.
      repeat split; auto.
      * intros E. rewrite E in Hpc. simpl in Hpc. lia.
      * intros E. rewrite E in Hz. simpl in Hz. congruence.
      * destruct (String.eqb_spec (Rev.RevisionName goal0)
                    (Rev.RevisionName newest)) as [En|En];
          injection Hret as <-.
        -- left. split; [assumption|reflexivity].
        -- right. split; [assumption|]. rewrite stealLoop_all. reflexivity.
  - assert (E : Revisions prev = []).
    { destruct (Revisions prev); [reflexivity|simpl in Hpc; lia]. }
    rewrite E. simpl. intros [= <-]. left. split; [reflexivity|]. left.
    reflexivity.
Qed.

Lemma stepConfig_nonNegative (goal prev ret : ConfigurationRollout)
    (nowTS : Z) :
  nonNegative (Revisions goal) ->
  nonNegative (Revisions prev) ->
  total (Revisions prev) = Percent prev ->
  0 <= Percent goal ->
  stepConfig goal prev nowTS = Some ret ->
  nonNegative (Revisions ret).
Proof.
  intros Hg Hp Hsum Hpos Hret.
  destruct (stepConfig_cases _ _ _ _ Hret)
    as [[-> _]|(adj & goal0 & newest & Hne & Hadj & Hadjne & Hg0 & Hn
                & [[En ->]|[En ->]])].
  - exact Hg.
  - pose proof (adjustPercentage_nonNegative _ _ _ Hp Hadj) as Hnn.
    pose proof (adjustPercentage_total _ _ _ Hsum Hpos Hadj) as Ht.
    rewrite stepRevisions_zero; auto.
  - pose proof (adjustPercentage_nonNegative _ _ _ Hp Hadj) as Hnn.
    cbn [Revisions]. apply nonNegative_app. split.
    + apply allPositive_nonNegative, allPositive_nonZero.
      apply nonNegative_rev, nonNegative_stealFrom, nonNegative_rev.
      assumption.
    + constructor; [simpl; lia|constructor].
Qed.

Lemma stepConfig_key (goal prev ret : ConfigurationRollout) (nowTS : Z) :
  stepConfig goal prev nowTS = Some ret ->
  ConfigurationName ret = ConfigurationName goal /\
  Tag ret = Tag goal /\ Percent ret = Percent goal.
Proof.
  intros Hret.
  destruct (stepConfig_cases _ _ _ _ Hret)
    as [[-> _]|(adj & goal0 & newest & _ & _ & _ & _ & _
                & [[_ ->]|[_ ->]])]; try (repeat split; reflexivity).
  destruct (stepRevisions_frame
              (mkConfigurationRollout (ConfigurationName goal) (Tag goal)
                 (Percent goal) (Revisions adj) (Deadline adj) (StartTime adj)
                 (NextStepTime adj) (StepDuration adj) 0) nowTS)
    as (H1 & H2 & H3 & _).
  rewrite H1, H2, H3. repeat split.
Qed.

(** X7.  Whenever [stepConfig] returns, for a goal with one revision that
    holds the percentage of the goal and a previous configuration whose
    percentages are not negative and add up to its [Percent], the result
    has the name, the tag and the percentage of the goal, and its
    revisions are not negative and add up to that percentage. *)
Theorem stepConfig_keeps_invariant (goal prev ret : ConfigurationRollout)
    (nowTS : Z) (goal0 : RevisionRollout) :
  Revisions goal = [goal0] ->
  Rev.Percent goal0 = Percent goal ->
  0 <= Percent goal ->
  total (Revisions prev) = Percent prev ->
  nonNegative (Revisions prev) ->
  stepConfig goal prev nowTS = Some ret ->
  ConfigurationName ret = ConfigurationName goal /\
  Tag ret = Tag goal /\
  Percent ret = Percent goal /\
  total (Revisions ret) = Percent ret /\
  nonNegative (Revisions ret).
Proof.
  intros Hg Hg0 Hpos Hsum Hnn Hret.
  destruct (stepConfig_key _ _ _ _ Hret) as (H1 & H2 & H3).
  repeat split; auto.
  - rewrite H3. eapply stepConfig_total; eauto.
  - assert (Hgn : nonNegative (Revisions goal)).
    { rewrite Hg. constructor; [lia|constructor]. }
    exact (stepConfig_nonNegative goal prev ret nowTS Hgn Hnn Hsum Hpos Hret).
Qed.

Lemma stepConfig_keeps_invariant_witness :
  let ret := mkConfigurationRollout "c" "" 100
               [revision "rev-1" 99; revision "rev-2" 1] 0 7 0 0 0 in
  total (Revisions ret) = Percent ret /\ nonNegative (Revisions ret).
Proof.
  cbv zeta.
  destruct (stepConfig_keeps_invariant
              (target "c" "" 100 [revision "rev-2" 100])
              (target "c" "" 100 [revision "rev-1" 100])
              (mkConfigurationRollout "c" "" 100
                 [revision "rev-1" 99; revision "rev-2" 1] 0 7 0 0 0)
              7 (revision "rev-2" 100))
    as (_ & _ & _ & Ht & Hn).
  - reflexivity.
  - reflexivity.
  - simpl. lia.
  - reflexivity.
  - nonneg.
  - reflexivity.
  - split; assumption.
Defined.



Lemma shrink_all (revs : list RevisionRollout) :
  forall diff : Z,
    nonNegative revs -> total revs < diff -> shrink diff revs = [].
Proof.
  induction revs as [|r tl IH]; intros diff Hn Hd; [reflexivity|].
  rewrite total_cons in Hd. inversion Hn as [|? ? Hr Htl]; subst.
  pose proof (nonNegative_total _ Htl) as Ht.
  simpl.
  destruct (Z.gtb_spec diff 0); [|lia].
  destruct (Z.gtb_spec (Rev.Percent r) diff); [lia|].
  apply IH; [assumption|lia].
Qed.

(** X9.  When [stepConfig] panics.  On a previous configuration with at
    least one revision, whose percentages are not negative and add up to
    [Percent], [stepConfig] reads [prev.Revisions] out of range exactly
    when the percentage of the goal is positive, lower than the one of
    [prev], and lower by the share of the oldest revision or more, so
    that [adjustPercentage] drops that revision. *)
Theorem stepConfig_panics_iff (goal prev : ConfigurationRollout) (nowTS : Z)
    (oldest : RevisionRollout) (newer : list RevisionRollout) :
  Revisions goal <> [] ->
  Revisions prev = oldest :: newer ->
  total (Revisions prev) = Percent prev ->
  nonNegative (Revisions prev) ->
  stepConfig goal prev nowTS = None <->
  0 < Percent goal < Percent prev /\
  Rev.Percent oldest <= Percent prev - Percent goal.
Proof.
  intros Hg Hp Hsum Hn.
  assert (Ho : 0 <= Rev.Percent oldest)
    by (rewrite Hp in Hn; inversion Hn; assumption).
  rewrite (stepConfig_None goal prev nowTS Hg).
  split.
  - intros (adj & Hadj & Hne & Hlt).
    rewrite adjustPercentage_view in Hadj.
    destruct (Z.eqb_spec (Percent goal) 0) as [Hz|Hz].
    { injection Hadj as <-. simpl in Hne. congruence. }
    destruct (Z.gtb_spec (Percent goal - Percent prev) 0) as [Hd|Hd].
    { rewrite <- (length_rev (Revisions prev)) in Hlt.
      destruct (rev (Revisions prev)) as [|newest older];
        [discriminate|].
      injection Hadj as <-. simpl in Hlt.
      rewrite length_app, length_rev in Hlt. simpl in Hlt. lia. }
    destruct (Z.ltb_spec (Percent goal - Percent prev) 0) as [Hl|Hl];
      injection Hadj as <-; [|lia].
    simpl in Hne, Hlt.
    destruct (Z_lt_le_dec (Percent goal) 0) as [Hneg|Hpos].
    { rewrite shrink_all in Hne; [congruence|assumption|lia]. }
    split; [lia|].
    rewrite Hp in Hlt. simpl in Hlt.
    destruct (Z.gtb_spec (Percent prev - Percent goal) 0); [|lia].
    destruct (Z.gtb_spec (Rev.Percent oldest) (Percent prev - Percent goal));
      [simpl in Hlt; lia|lia].
  - intros [[Hpos Hlt] Hle].
    exists (setRevisions prev
              (shrink (Percent prev - Percent goal) (Revisions prev))).
    split; [|split].
    + rewrite adjustPercentage_view.
      destruct (Z.eqb_spec (Percent goal) 0); [lia|].
      destruct (Z.gtb_spec (Percent goal - Percent prev) 0); [lia|].
      destruct (Z.ltb_spec (Percent goal - Percent prev) 0); [|lia].
      reflexivity.
    + simpl. intros He.
      assert (Hr : 0 <= Percent prev - Percent goal <= total (Revisions prev))
        by lia.
      pose proof (total_shrink (Revisions prev) _ Hr) as Ht.
      rewrite He in Ht. change (total []) with 0 in Ht. lia.
    + simpl. rewrite Hp. simpl.
      destruct (Z.gtb_spec (Percent prev - Percent goal) 0); [|lia].
      destruct (Z.gtb_spec (Rev.Percent oldest) (Percent prev - Percent goal));
        [lia|].
      pose proof (length_shrink newer
                    (Percent prev - Percent goal - Rev.Percent oldest)).
      lia.
Qed.

Lemma stepConfig_panics_iff_witness :
  stepConfig (target "c" "" 40 [revision "b" 40])
             (target "c" "" 50 [revision "a" 10; revision "b" 40]) 7 = None.
Proof.
  apply (proj2 (stepConfig_panics_iff
                  (target "c" "" 40 [revision "b" 40])
                  (target "c" "" 50 [revision "a" 10; revision "b" 40]) 7
                  (revision "a" 10) [revision "b" 40]
                  ltac:(discriminate) eq_refl eq_refl ltac:(nonneg))).
  simpl. lia.
Defined.





(** ** Valid rollouts *)

Lemma Validate_iff (cur : Rollout) :
  Validate cur = true <-> Forall validConfig (Configurations cur).
Proof.
  unfold Validate. induction (Configurations cur) as [|c tl IH]; simpl.
  - split; constructor.
  - unfold validConfig at 1.
    destruct (Z.gtb_spec (Percent c) 100) as [Hp|Hp].
    { split; [discriminate|]. intros H. inversion H; subst.
      unfold validConfig in *. lia. }
    destruct (Z.eqb_spec (total (Revisions c)) (Percent c)) as [He|He]; simpl.
    + rewrite IH. split.
      * intros H. constructor; [split; [lia|assumption]|assumption].
      * intros H. inversion H; assumption.
    + split; [discriminate|]. intros H. inversion H; subst.
      unfold validConfig in *. tauto.
Qed.

Lemma mergeConfigs_elements (nowTS : Z) (ccfgs : list ConfigurationRollout) :
  forall (pcfgs out : list ConfigurationRollout),
    mergeConfigs nowTS ccfgs pcfgs = Some out ->
    forall o, In o out ->
      In o ccfgs \/
      exists c p,
        In c ccfgs /\ In p pcfgs /\
        ConfigurationName c = ConfigurationName p /\
        1 < Percent c /\ stepConfig c p nowTS = Some o.
Proof.
  induction ccfgs as [|c0 ctl IH]; intros pcfgs.
  - intros out [= <-] o [].
  - induction pcfgs as [|p ptl IHp]; intros out Hm o Hin; cbn in Hm.
    + apply In_option_cons in Hm. destruct Hm as (rest & Hm & ->).
      destruct Hin as [<-|Hin]; [left; left; reflexivity|].
      destruct (IH _ _ Hm _ Hin) as [H|(c & q & Hc & [] & _)].
      left. right. assumption.
    + assert (Hrec : forall rest ps,
                 mergeConfigs nowTS ctl ps = Some rest -> In o rest ->
                 (forall q, In q ps -> In q (p :: ptl)) ->
                 In o (c0 :: ctl) \/
                 exists c q, In c (c0 :: ctl) /\ In q (p :: ptl) /\
                   ConfigurationName c = ConfigurationName q /\
                   1 < Percent c /\ stepConfig c q nowTS = Some o).
      { intros rest ps Hr Ho Hsub.
        destruct (IH _ _ Hr _ Ho) as [H|(c & q & Hc & Hq & Hn & Hp & Hs)].
        - left. right. assumption.
        - right. exists c, q. repeat split; auto. right. assumption. }
      destruct (String.eqb_spec (ConfigurationName c0) (ConfigurationName p))
        as [En|En].
      * destruct (Z.gtb_spec (Percent c0) 1) as [Hp|Hp].
        -- destruct (stepConfig c0 p nowTS) as [r|] eqn:Hs; [|discriminate].
           apply In_option_cons in Hm. destruct Hm as (rest & Hm & ->).
           destruct Hin as [<-|Hin].
           ++ right. exists c0, p. repeat split; auto; left; reflexivity.
           ++ apply (Hrec rest ptl); auto. intros q Hq. right. assumption.
        -- destruct (Percent c0 =? 1).
           ++ apply In_option_cons in Hm. destruct Hm as (rest & Hm & ->).
              destruct Hin as [<-|Hin]; [left; left; reflexivity|].
              apply (Hrec rest ptl); auto. intros q Hq. right. assumption.
           ++ apply (Hrec out ptl); auto. intros q Hq. right. assumption.
      * destruct (String.ltb (ConfigurationName c0) (ConfigurationName p)).
        -- destruct (negb (Percent c0 =? 0)).
           ++ apply In_option_cons in Hm. destruct Hm as (rest & Hm & ->).
              destruct Hin as [<-|Hin]; [left; left; reflexivity|].
              apply (Hrec rest (p :: ptl)); auto.
           ++ apply (Hrec out (p :: ptl)); auto.
        -- destruct (IHp _ Hm _ Hin) as [H|(c & q & Hc & Hq & Hn & Hp & Hs)].
           ++ left. assumption.
           ++ right. exists c, q. repeat split; auto. right. assumption.
Qed.

Lemma stepTag_elements (nowTS : Z) (cur prev : list ConfigurationRollout)
    (t : string) (here : list ConfigurationRollout) :
  stepTag nowTS cur prev t = Some here ->
  forall o, In o here -> steppedFrom nowTS cur prev o.
Proof.
  unfold stepTag. destruct (hasTag t prev).
  - intros Hm o Hin.
    destruct (mergeConfigs_elements _ _ _ _ Hm _ Hin)
      as [H|(c & p & Hc & Hp & Hn & Hgt & Hs)].
    + left. apply byTag_In in H. tauto.
    + right. exists c, p. apply byTag_In in Hc. apply byTag_In in Hp.
      repeat split; try tauto. destruct Hc as [_ ->], Hp as [_ ->]. reflexivity.
  - destruct (byTag t cur) as [|c0 rest] eqn:E; [discriminate|].
    intros [= <-] o [<-|[]]. left.
    assert (H : In c0 (byTag t cur)) by (rewrite E; left; reflexivity).
    apply byTag_In in H. tauto.
Qed.

Lemma StepWith_elements (tags : list string) (cur prev out : Rollout)
    (nowTS : Z) :
  StepWith tags cur (Some prev) nowTS = Some out ->
  forall o, In o (Configurations out) ->
    steppedFrom nowTS (Configurations cur) (Configurations prev) o.
Proof.
  unfold StepWith.
  destruct (length (Configurations prev) =? 0)%nat.
  { intros [= <-] o Ho. left. assumption. }
  destruct (stepTags nowTS (Configurations cur) (Configurations prev) tags)
    as [ret|] eqn:Hret; [|discriminate].
  intros [= <-] o Ho. cbn [Configurations] in Ho.
  apply (proj1 (sortRollout_In o ret)) in Ho.
  apply (proj1 (stepTags_In _ _ _ _ _ Hret o)) in Ho.
  destruct Ho as (t & here & _ & Hs & Hin).
  eapply stepTag_elements; eauto.
Qed.

(** X10.  Where the configurations of the result of [Step] come from.
    Each is a configuration of [cur] as it is, or the [stepConfig] of a
    configuration of [cur] with more than 1% from the configuration of
    [prev] with its name and tag; either way it has the name, the tag
    and the percentage of a configuration of [cur]. *)
Theorem Step_elements (tags : list string) (cur prev out : Rollout)
    (nowTS : Z) (o : ConfigurationRollout) :
  StepWith tags cur (Some prev) nowTS = Some out ->
  In o (Configurations out) ->
  steppedFrom nowTS (Configurations cur) (Configurations prev) o /\
  exists c,
    In c (Configurations cur) /\
    ConfigurationName o = ConfigurationName c /\
    Tag o = Tag c /\ Percent o = Percent c.
Proof.
  intros Hstep Ho.
  pose proof (StepWith_elements _ _ _ _ _ Hstep o Ho) as Hfrom.
  split; [exact Hfrom|].
  destruct Hfrom as [Hin|(c & p & Hc & _ & _ & _ & _ & Hs)].
  - exists o. auto.
  - exists c. split; [assumption|]. eapply stepConfig_key; eauto.
Qed.

Lemma Step_elements_witness :
  let a := target "a" "t" 50 [revision "r" 50] in
  let b := target "b" "t" 50 [revision "r" 50] in
  let x := target "x" "" 100 [revision "r1" 100] in
  exists c, In c [a; b] /\ ConfigurationName a = ConfigurationName c /\
            Tag a = Tag c /\ Percent a = Percent c.
Proof.
  cbv zeta.
  apply (Step_elements ["t"%string]
           (mkRollout [target "a" "t" 50 [revision "r" 50];
                       target "b" "t" 50 [revision "r" 50]])
           (mkRollout [target "x" "" 100 [revision "r1" 100]])
           (mkRollout [target "a" "t" 50 [revision "r" 50]])
           0 (target "a" "t" 50 [revision "r" 50])).
  - reflexivity.
  - left. reflexivity.
Defined.

Lemma goalShaped_wellFormed (c : ConfigurationRollout) :
  goalShaped c -> wellFormed c.
Proof.
  intros (r & Hr & Hp & Hb). unfold wellFormed, validConfig.
  rewrite Hr, total_cons. change (total []) with 0.
  repeat split; try lia. constructor; [lia|constructor].
Qed.

(** X11.  [Step] keeps rollouts valid.  When every configuration of [cur]
    has one revision, which holds its percentage, between 0 and 100, and
    every configuration of [prev] passes the checks of [Validate] and
    has no negative percentage, then so does every configuration of a
    rollout that [Step] returns, whatever the order of the tags. *)
Theorem Step_keeps_valid (tags : list string) (cur prev out : Rollout)
    (nowTS : Z) :
  Forall goalShaped (Configurations cur) ->
  Forall wellFormed (Configurations prev) ->
  StepWith tags cur (Some prev) nowTS = Some out ->
  Forall wellFormed (Configurations out) /\ Validate out = true.
Proof.
  intros Hcur Hprev Hstep.
  assert (Hwf : Forall wellFormed (Configurations out)).
  { apply Forall_forall. intros o Ho.
    destruct (StepWith_elements _ _ _ _ _ Hstep o Ho)
      as [Hin|(c & p & Hc & Hp & _ & _ & _ & Hs)].
    - apply goalShaped_wellFormed.
      rewrite Forall_forall in Hcur. auto.
    - rewrite Forall_forall in Hcur, Hprev.
      destruct (Hcur c Hc) as (r & Hr & Hrp & Hb).
      destruct (Hprev p Hp) as ((_ & Hsum) & Hnn).
      destruct (stepConfig_key _ _ _ _ Hs) as (_ & _ & Hpc).
      assert (Hnng : nonNegative (Revisions c)).
      { rewrite Hr. constructor; [lia|constructor]. }
      repeat split.
      + lia.
      + rewrite Hpc. eapply stepConfig_total; eauto. lia.
      + eapply (stepConfig_nonNegative c p o nowTS); auto. lia. }
  split; [exact Hwf|].
  apply Validate_iff. eapply Forall_impl; [|exact Hwf].
  intros o [H _]. exact H.
Qed.

Lemma Step_keeps_valid_witness :
  Validate
    (mkRollout [mkConfigurationRollout "x" "" 100
                  [revision "r1" 99; revision "r2" 1] 0 3 0 0 0]) = true.
Proof.
  apply (Step_keeps_valid [""%string]
           (mkRollout [target "x" "" 100 [revision "r2" 100]])
           (mkRollout [target "x" "" 100 [revision "r1" 100]])
           (mkRollout [mkConfigurationRollout "x" "" 100
                         [revision "r1" 99; revision "r2" 1] 0 3 0 0 0]) 3).
  - repeat constructor. exists (revision "r2" 100). repeat split; simpl; lia.
  - repeat constructor; simpl; lia.
  - reflexivity.
Defined.

(** ** The order of the result *)

Lemma ltb_lt (a b : string) : String.ltb a b = true <-> String_as_OT.lt a b.
Proof.
  unfold String.ltb. rewrite <- String_as_OT.cmp_lt. unfold String_as_OT.cmp.
  destruct (String.compare a b); split; congruence.
Qed.

Lemma ltb_irrefl (a : string) : String.ltb a a = false.
Proof.
  destruct (String.ltb a a) eqn:E; [|reflexivity].
  apply ltb_lt in E. exfalso. exact (String_as_OT.lt_not_eq _ _ E eq_refl).
Qed.

Lemma ltb_trans (a b c : string) :
  String.ltb a b = true -> String.ltb b c = true -> String.ltb a c = true.
Proof.
  rewrite !ltb_lt. apply String_as_OT.lt_trans.
Qed.

Lemma ltb_asym (a b : string) :
  String.ltb a b = true -> String.ltb b a = false.
Proof.
  intros H. destruct (String.ltb b a) eqn:E; [|reflexivity].
  pose proof (ltb_trans _ _ _ H E) as F. rewrite ltb_irrefl in F.
  discriminate.
Qed.

Lemma ltb_total (a b : string) :
  String.ltb a b = false -> String.ltb b a = false -> a = b.
Proof.
  unfold String.ltb. rewrite (String.compare_antisym a b).
  destruct (String.compare b a) eqn:E; simpl; try discriminate.
  intros _ _. symmetry. apply String.compare_eq_iff. assumption.
Qed.


Lemma less_irrefl (a : ConfigurationRollout) : less a a = false.
Proof. unfold less. rewrite String.eqb_refl. apply ltb_irrefl. Qed.

Lemma less_trans (a b c : ConfigurationRollout) :
  less a b = true -> less b c = true -> less a c = true.
Proof.
  unfold less.
  destruct (String.eqb_spec (Tag a) (Tag b)) as [Eab|Nab];
    destruct (String.eqb_spec (Tag b) (Tag c)) as [Ebc|Nbc];
    destruct (String.eqb_spec (Tag a) (Tag c)) as [Eac|Nac];
    try congruence.
  - apply ltb_trans.
  - intros H1 H2. rewrite Eac in H1. apply ltb_asym in H1. congruence.
  - apply ltb_trans.
Qed.

Lemma less_asym (a b : ConfigurationRollout) :
  less a b = true -> less b a = false.
Proof.
  intros H. destruct (less b a) eqn:E; [|reflexivity].
  pose proof (less_trans _ _ _ H E) as F. rewrite less_irrefl in F.
  discriminate.
Qed.

Lemma less_total (a b : ConfigurationRollout) :
  less a b = false -> less b a = false -> key a = key b.
Proof.
  unfold less, key. rewrite (String.eqb_sym (Tag b) (Tag a)).
  destruct (String.eqb_spec (Tag a) (Tag b)) as [E|N].
  - intros H1 H2. rewrite E, (ltb_total _ _ H1 H2). reflexivity.
  - intros H1 H2. elim N. apply ltb_total; assumption.
Qed.

Lemma less_key (a a' b b' : ConfigurationRollout) :
  key a = key a' -> key b = key b' -> less a b = less a' b'.
Proof. unfold key, less. intros [= -> ->] [= -> ->]. reflexivity. Qed.

Lemma notAfter_trans (a b c : ConfigurationRollout) :
  notAfter a b -> notAfter b c -> notAfter a c.
Proof.
  unfold notAfter. intros Hab Hbc.
  destruct (less c a) eqn:Hca; [|reflexivity].
  destruct (less b c) eqn:Hbc'.
  - pose proof (less_trans _ _ _ Hbc' Hca). congruence.
  - pose proof (less_total _ _ Hbc' Hbc) as K.
    rewrite (less_key b c a a K eq_refl) in Hab. congruence.
Qed.

(** X14.  The comparison of [sortRollout] is a strict weak order, as
    [sort.Slice] requires, and two configurations are incomparable
    exactly when they have the same tag and the same name. *)
Theorem less_strict_weak_order :
  (forall a, less a a = false) /\
  (forall a b c, less a b = true -> less b c = true -> less a c = true) /\
  (forall a b, less a b = true -> less b a = false) /\
  (forall a b,
     (less a b = false /\ less b a = false) <->
     (Tag a = Tag b /\ ConfigurationName a = ConfigurationName b)).
Proof.
  split; [exact less_irrefl|]. split; [exact less_trans|].
  split; [exact less_asym|].
  intros a b. split.
  - intros [H1 H2]. pose proof (less_total _ _ H1 H2) as K.
    unfold key in K. injection K as -> ->. split; reflexivity.
  - intros [Ht Hn].
    assert (K : key a = key b) by (unfold key; congruence).
    rewrite (less_key a b b b K eq_refl), (less_key b b a b eq_refl K).
    rewrite less_irrefl. split; reflexivity.
Qed.


Lemma insertConfig_perm (c : ConfigurationRollout)
    (l : list ConfigurationRollout) :
  Permutation (insertConfig c l) (c :: l).
Proof.
  induction l as [|x tl IH]; simpl; [reflexivity|].
  destruct (less c x); [reflexivity|].
  rewrite IH. apply perm_swap.
Qed.

Lemma sortRollout_perm (l : list ConfigurationRollout) :
  Permutation (sortRollout l) l.
Proof.
  induction l as [|x tl IH]; simpl; [reflexivity|].
  rewrite insertConfig_perm. constructor. assumption.
Qed.

Lemma insertConfig_sorted (c : ConfigurationRollout)
    (l : list ConfigurationRollout) :
  StronglySorted notAfter l -> StronglySorted notAfter (insertConfig c l).
Proof.
  induction 1 as [|x tl Hs IH Hx]; simpl.
  - constructor; constructor.
  - destruct (less c x) eqn:Hc.
    + constructor; [constructor; assumption|].
      assert (Hcx : notAfter c x) by (apply less_asym; assumption).
      constructor; [assumption|].
      eapply Forall_impl; [|exact Hx].
      intros y Hy. eapply notAfter_trans; eauto.
    + constructor; [assumption|].
      apply Forall_forall. intros y Hy.
      apply insertConfig_In in Hy. destruct Hy as [->|Hy]; [exact Hc|].
      rewrite Forall_forall in Hx. auto.
Qed.

Lemma sortRollout_sorted (l : list ConfigurationRollout) :
  StronglySorted notAfter (sortRollout l).
Proof.
  induction l as [|x tl IH]; simpl; [constructor|].
  apply insertConfig_sorted. assumption.
Qed.

(** Sorted lists with the same members and distinct keys are equal. *)
Lemma sorted_unique (l1 : list ConfigurationRollout) :
  forall l2,
    Permutation l1 l2 ->
    NoDup (map key l1) ->
    StronglySorted notAfter l1 ->
    StronglySorted notAfter l2 ->
    l1 = l2.
Proof.
  induction l1 as [|a l1 IH]; intros l2 Hp Hk Hs1 Hs2.
  - apply Permutation_nil in Hp. congruence.
  - destruct l2 as [|b l2].
    { apply Permutation_sym, Permutation_nil in Hp. discriminate. }
    inversion Hs1 as [|? ? Hs1' Ha]; subst.
    inversion Hs2 as [|? ? Hs2' Hb]; subst.
    inversion Hk as [|? ? Hnin Hk']; subst.
    assert (Hab : a = b).
    { assert (Hin_a : In a (b :: l2))
        by (eapply Permutation_in; [exact Hp|left; reflexivity]).
      assert (Hin_b : In b (a :: l1))
        by (eapply Permutation_in; [apply Permutation_sym; exact Hp|];
            left; reflexivity).
      destruct Hin_a as [E|Hin_a]; [congruence|].
      destruct Hin_b as [E|Hin_b]; [congruence|].
      rewrite Forall_forall in Ha, Hb.
      pose proof (Ha b Hin_b) as H1. pose proof (Hb a Hin_a) as H2.
      unfold notAfter in H1, H2.
      pose proof (less_total _ _ H2 H1) as K.
      elim Hnin. rewrite K. apply in_map. assumption. }
    subst b. f_equal. apply IH; auto.
    eapply Permutation_cons_inv; eauto.
Qed.

Lemma sortRollout_unique (l l' : list ConfigurationRollout) :
  Permutation l l' -> NoDup (map key l) -> sortRollout l' = sortRollout l.
Proof.
  intros Hp Hk. apply sorted_unique.
  - rewrite !sortRollout_perm. symmetry. assumption.
  - eapply Permutation_NoDup; [|exact Hk].
    apply Permutation_map. rewrite sortRollout_perm. assumption.
  - apply sortRollout_sorted.
  - apply sortRollout_sorted.
Qed.

(** X15.  [sortRollout] returns the configurations it was given, ordered
    by tag and, within a tag, by name; when no two of them have the same
    tag and name, the result does not depend on the order they came
    in. *)
Theorem sortRollout_sorts (l : list ConfigurationRollout) :
  Permutation (sortRollout l) l /\
  StronglySorted notAfter (sortRollout l) /\
  (forall l', Permutation l l' -> NoDup (map key l) ->
              sortRollout l' = sortRollout l).
Proof.
  split; [apply sortRollout_perm|]. split; [apply sortRollout_sorted|].
  intros l' Hp Hk. apply sortRollout_unique; assumption.
Qed.

(** ** The order of the tags *)

(** One round of the intersect loop on the first current configuration:
    it emits nothing or one configuration with the key of that
    configuration, and goes on with the rest. *)
Lemma mergeConfigs_step (nowTS : Z) (c0 : ConfigurationRollout)
    (ctl : list ConfigurationRollout) :
  forall (pcfgs out : list ConfigurationRollout),
    mergeConfigs nowTS (c0 :: ctl) pcfgs = Some out ->
    exists ps rest,
      mergeConfigs nowTS ctl ps = Some rest /\
      (out = rest \/ exists o, out = o :: rest /\ key o = key c0).
Proof.
  induction pcfgs as [|p ptl IHp]; intros out Hm; cbn in Hm.
  - apply In_option_cons in Hm. destruct Hm as (rest & Hm & ->).
    exists [], rest. split; [assumption|]. right. exists c0. auto.
  - destruct (String.eqb (ConfigurationName c0) (ConfigurationName p)).
    + destruct (Percent c0 >? 1).
      * destruct (stepConfig c0 p nowTS) as [r|] eqn:Hs; [|discriminate].
        apply In_option_cons in Hm. destruct Hm as (rest & Hm & ->).
        exists ptl, rest. split; [assumption|]. right. exists r.
        split; [reflexivity|]. unfold key.
        destruct (stepConfig_key _ _ _ _ Hs) as (-> & -> & _). reflexivity.
      * destruct (Percent c0 =? 1).
        -- apply In_option_cons in Hm. destruct Hm as (rest & Hm & ->).
           exists ptl, rest. split; [assumption|]. right. exists c0. auto.
        -- exists ptl, out. auto.
    + destruct (String.ltb (ConfigurationName c0) (ConfigurationName p)).
      * destruct (negb (Percent c0 =? 0)).
        -- apply In_option_cons in Hm. destruct Hm as (rest & Hm & ->).
           exists (p :: ptl), rest. split; [assumption|]. right.
           exists c0. auto.
        -- exists (p :: ptl), out. auto.
      * apply IHp. assumption.
Qed.

Lemma mergeConfigs_keys (nowTS : Z) (ccfgs : list ConfigurationRollout) :
  forall (pcfgs out : list ConfigurationRollout),
    mergeConfigs nowTS ccfgs pcfgs = Some out ->
    incl (map key out) (map key ccfgs) /\
    (NoDup (map key ccfgs) -> NoDup (map key out)).
Proof.
  induction ccfgs as [|c0 ctl IH]; intros pcfgs out Hm.
  - injection Hm as <-. split; [apply incl_refl|auto].
  - destruct (mergeConfigs_step _ _ _ _ _ Hm)
      as (ps & rest & Hr & [->|(o & -> & Hk)]);
      destruct (IH _ _ Hr) as [Hincl Hnd]; simpl.
    + split; [apply incl_tl; assumption|].
      intros H. inversion H; auto.
    + rewrite Hk. split.
      * apply incl_cons; [left; reflexivity|apply incl_tl; assumption].
      * intros H. inversion H as [|? ? Hnin Hnd']; subst.
        constructor; auto.
Qed.

Lemma byTag_keys (t : string) (cs : list ConfigurationRollout) :
  NoDup (map key cs) -> NoDup (map key (byTag t cs)).
Proof.
  induction cs as [|c tl IH]; simpl; [auto|].
  intros H. inversion H as [|? ? Hnin Hnd]; subst.
  destruct (String.eqb (Tag c) t); simpl; auto.
  constructor; auto. intros Hin. apply Hnin.
  apply in_map_iff in Hin. destruct Hin as (x & Hx & Hin).
  apply byTag_In in Hin. apply in_map_iff. exists x. tauto.
Qed.

Lemma stepTag_keys (nowTS : Z) (cur prev : list ConfigurationRollout)
    (t : string) (here : list ConfigurationRollout) :
  NoDup (map key cur) ->
  stepTag nowTS cur prev t = Some here ->
  NoDup (map key here).
Proof.
  intros Hk. unfold stepTag. destruct (hasTag t prev).
  - intros Hm. apply (mergeConfigs_keys _ _ _ _ Hm).
    apply byTag_keys. assumption.
  - destruct (byTag t cur); [discriminate|].
    intros [= <-]. simpl. constructor; [intros []|constructor].
Qed.

Lemma stepTags_keys (nowTS : Z) (cur prev : list ConfigurationRollout)
    (tags : list string) :
  forall ret : list ConfigurationRollout,
    NoDup (map key cur) ->
    NoDup tags ->
    stepTags nowTS cur prev tags = Some ret ->
    NoDup (map key ret).
Proof.
  induction tags as [|t rest IH]; intros ret Hk Ht; simpl.
  - intros [= <-]. constructor.
  - destruct (stepTag nowTS cur prev t) as [here|] eqn:Hs; [|discriminate].
    destruct (stepTags nowTS cur prev rest) as [more|] eqn:Hm; [|discriminate].
    intros [= <-]. inversion Ht as [|? ? Hnin Hnd]; subst.
    rewrite map_app. apply NoDup_app.
    + eapply stepTag_keys; eauto.
    + apply IH; auto.
    + intros k Hin1 Hin2.
      apply in_map_iff in Hin1. destruct Hin1 as (x & <- & Hx).
      apply in_map_iff in Hin2. destruct Hin2 as (y & Hy & Hyin).
      pose proof (stepTag_Tag _ _ _ _ _ Hs _ Hx) as Tx.
      apply (proj1 (stepTags_In _ _ _ _ _ Hm y)) in Hyin.
      destruct Hyin as (t' & here' & Hin' & Hs' & Hyh).
      pose proof (stepTag_Tag _ _ _ _ _ Hs' _ Hyh) as Ty.
      unfold key in Hy. injection Hy as Hy1 Hy2.
      apply Hnin. congruence.
Qed.

Lemma agree_trans (a b c : option (list ConfigurationRollout)) :
  agree a b -> agree b c -> agree a c.
Proof.
  destruct a, b, c; simpl; try tauto. apply Permutation_trans.
Qed.

Lemma stepTags_perm (nowTS : Z) (cur prev : list ConfigurationRollout)
    (tags tags' : list string) :
  Permutation tags tags' ->
  agree (stepTags nowTS cur prev tags) (stepTags nowTS cur prev tags').
Proof.
  induction 1 as [|t l l' Hp IH|t u l|l l' l'' _ IH1 _ IH2]; simpl.
  - reflexivity.
  - destruct (stepTag nowTS cur prev t); [|exact I].
    destruct (stepTags nowTS cur prev l), (stepTags nowTS cur prev l');
      simpl in *; try tauto.
    apply Permutation_app_head. assumption.
  - destruct (stepTag nowTS cur prev t), (stepTag nowTS cur prev u);
      simpl; try exact I;
      destruct (stepTags nowTS cur prev l); simpl; try exact I.
    rewrite !app_assoc. apply Permutation_app_tail, Permutation_app_comm.
  - eapply agree_trans; eauto.
Qed.

Lemma StepWith_perm (tags tags' : list string)
    (cur : Rollout) (prev : option Rollout) (nowTS : Z) :
  NoDup (map key (Configurations cur)) ->
  NoDup tags ->
  Permutation tags tags' ->
  StepWith tags cur prev nowTS = StepWith tags' cur prev nowTS.
Proof.
  intros Hk Ht Hp. unfold StepWith.
  destruct prev as [prev|]; [|reflexivity].
  destruct (length (Configurations prev) =? 0)%nat; [reflexivity|].
  pose proof (stepTags_perm nowTS (Configurations cur) (Configurations prev)
                _ _ Hp) as Ha.
  pose proof (stepTags_keys nowTS (Configurations cur) (Configurations prev)
                tags) as Hkeys.
  destruct (stepTags nowTS (Configurations cur) (Configurations prev) tags)
    as [ret|];
    destruct (stepTags nowTS (Configurations cur) (Configurations prev) tags')
    as [ret'|]; simpl in *; try tauto.
  f_equal. f_equal. symmetry.
  apply sortRollout_unique; auto.
Qed.

(** X12.  The result of [Step] does not depend on the order in which the
    map of tags is visited: when no two configurations of [cur] have the
    same tag and name, every order of the tags gives the rollout, or the
    panic, of [Step]. *)
Theorem Step_order_independent (tags : list string)
    (cur : Rollout) (prev : option Rollout) (nowTS : Z) :
  NoDup (map key (Configurations cur)) ->
  Permutation (tagsOf (Configurations cur)) tags ->
  StepWith tags cur prev nowTS = Step cur prev nowTS.
Proof.
  intros Hk Hp. unfold Step. symmetry.
  apply StepWith_perm; [assumption| |assumption].
  apply NoDup_nodup.
Qed.

Lemma Step_order_independent_witness :
  let cur := mkRollout [target "a" "" 60 [revision "a2" 60];
                        target "b" "canary" 40 [revision "b2" 40]] in
  let prev := mkRollout [target "a" "" 60 [revision "a1" 60];
                         target "b" "canary" 40 [revision "b1" 40]] in
  StepWith ["canary"; ""]%string cur (Some prev) 7 = Step cur (Some prev) 7.
Proof.
  cbv zeta. apply Step_order_independent.
  - repeat constructor; simpl; intuition discriminate.
  - vm_compute. apply perm_swap.
Defined.

(** ** The intersect loop *)

Lemma nameBefore_unique (l : list ConfigurationRollout) :
  StronglySorted nameBefore l ->
  forall x y, In x l -> In y l ->
    ConfigurationName x = ConfigurationName y -> x = y.
Proof.
  induction 1 as [|a tl Hs IH Ha]; intros x y Hx Hy Hn; [contradiction|].
  rewrite Forall_forall in Ha. unfold nameBefore in Ha.
  destruct Hx as [<-|Hx], Hy as [<-|Hy]; auto.
  - specialize (Ha _ Hy). rewrite Hn, ltb_irrefl in Ha. discriminate.
  - specialize (Ha _ Hx). rewrite Hn, ltb_irrefl in Ha. discriminate.
Qed.

(** The intersect loop pairs every current configuration with the
    previous one of its name. *)
Lemma mergeConfigs_pairs (nowTS : Z) (ccfgs : list ConfigurationRollout) :
  StronglySorted nameBefore ccfgs ->
  forall pcfgs out : list ConfigurationRollout,
    StronglySorted nameBefore pcfgs ->
    mergeConfigs nowTS ccfgs pcfgs = Some out ->
    forall c p,
      In c ccfgs -> In p pcfgs ->
      ConfigurationName c = ConfigurationName p ->
      (1 < Percent c ->
       exists r, stepConfig c p nowTS = Some r /\ In r out) /\
      (Percent c = 1 -> In c out).
Proof.
  induction 1 as [|c0 ctl Hsc IH Hc0]; [intros ? ? _ _ ? ? []|].
  rewrite Forall_forall in Hc0. unfold nameBefore in Hc0.
  assert (Hmono : forall c p rest o,
             ((1 < Percent c ->
               exists r, stepConfig c p nowTS = Some r /\ In r rest) /\
              (Percent c = 1 -> In c rest)) ->
             (1 < Percent c ->
              exists r, stepConfig c p nowTS = Some r /\ In r (o :: rest)) /\
             (Percent c = 1 -> In c (o :: rest))).
  { intros c p rest o [H1 H2]. split.
    - intros Hp. destruct (H1 Hp) as (r & Hr & Hin). exists r.
      split; [assumption|right; assumption].
    - intros Hp. right. auto. }
  induction pcfgs as [|p0 ptl IHp]; intros out Hsp Hm c p Hc Hp Hn;
    [contradiction|].
  inversion Hsp as [|? ? Hsp' Hp0]; subst.
  rewrite Forall_forall in Hp0. unfold nameBefore in Hp0.
  cbn in Hm.
  destruct (String.eqb_spec (ConfigurationName c0) (ConfigurationName p0))
    as [En|En].
  - destruct Hc as [<-|Hc].
    + assert (p = p0).
      { apply (nameBefore_unique (p0 :: ptl) Hsp); auto.
        - left; reflexivity.
        - congruence. }
      subst p.
      destruct (Z.gtb_spec (Percent c0) 1) as [Hgt|Hle].
      * destruct (stepConfig c0 p0 nowTS) as [r|] eqn:Hs; [|discriminate].
        apply In_option_cons in Hm. destruct Hm as (rest & Hm & ->).
        split; [|lia]. intros _. exists r. split; [reflexivity|left; reflexivity].
      * destruct (Z.eqb_spec (Percent c0) 1) as [H1|H1]; [|split; lia].
        apply In_option_cons in Hm. destruct Hm as (rest & Hm & ->).
        split; [lia|]. intros _. left. reflexivity.
    + assert (Hp' : In p ptl).
      { destruct Hp as [<-|Hp]; [|assumption].
        specialize (Hc0 _ Hc). rewrite Hn, <- En, ltb_irrefl in Hc0.
        discriminate. }
      destruct (Percent c0 >? 1).
      * destruct (stepConfig c0 p0 nowTS) as [r|]; [|discriminate].
        apply In_option_cons in Hm. destruct Hm as (rest & Hm & ->).
        apply Hmono. eapply IH; eauto.
      * destruct (Percent c0 =? 1).
        -- apply In_option_cons in Hm. destruct Hm as (rest & Hm & ->).
           apply Hmono. eapply IH; eauto.
        -- eapply IH; eauto.
  - destruct (String.ltb (ConfigurationName c0) (ConfigurationName p0))
      eqn:Hlt.
    + assert (Hc' : In c ctl).
      { destruct Hc as [<-|Hc]; [|assumption]. exfalso.
        destruct Hp as [<-|Hp]; [congruence|].
        specialize (Hp0 _ Hp). rewrite <- Hn in Hp0.
        pose proof (ltb_trans _ _ _ Hlt Hp0) as F.
        rewrite ltb_irrefl in F. discriminate. }
      destruct (negb (Percent c0 =? 0)).
      * apply In_option_cons in Hm. destruct Hm as (rest & Hm & ->).
        apply Hmono. eapply (IH (p0 :: ptl)); eauto.
      * eapply (IH (p0 :: ptl)); eauto.
    + assert (Hp' : In p ptl).
      { destruct Hp as [<-|Hp]; [|assumption]. exfalso.
        destruct Hc as [<-|Hc]; [congruence|].
        specialize (Hc0 _ Hc). rewrite Hn in Hc0. congruence. }
      eapply IHp; eauto.
Qed.

(** A new configuration with traffic is kept. *)
Lemma mergeConfigs_new (nowTS : Z) (ccfgs : list ConfigurationRollout) :
  forall pcfgs out : list ConfigurationRollout,
    mergeConfigs nowTS ccfgs pcfgs = Some out ->
    forall c,
      In c ccfgs ->
      (forall p, In p pcfgs -> ConfigurationName c <> ConfigurationName p) ->
      Percent c <> 0 ->
      In c out.
Proof.
  induction ccfgs as [|c0 ctl IH]; [intros ? ? _ ? []|].
  induction pcfgs as [|p0 ptl IHp]; intros out Hm c Hc Hnew Hp; cbn in Hm.
  - apply In_option_cons in Hm. destruct Hm as (rest & Hm & ->).
    destruct Hc as [<-|Hc]; [left; reflexivity|].
    right. eapply IH; eauto.
  - assert (Hnew' : forall p, In p ptl ->
                     ConfigurationName c <> ConfigurationName p).
    { intros p Hin. apply Hnew. right. assumption. }
    destruct (String.eqb_spec (ConfigurationName c0) (ConfigurationName p0))
      as [En|En].
    + assert (Hc' : In c ctl).
      { destruct Hc as [<-|Hc]; [|assumption]. exfalso.
        apply (Hnew p0); [left; reflexivity|assumption]. }
      destruct (Percent c0 >? 1).
      * destruct (stepConfig c0 p0 nowTS) as [r|]; [|discriminate].
        apply In_option_cons in Hm. destruct Hm as (rest & Hm & ->).
        right. eapply IH; eauto.
      * destruct (Percent c0 =? 1).
        -- apply In_option_cons in Hm. destruct Hm as (rest & Hm & ->).
           right. eapply IH; eauto.
        -- eapply IH; eauto.
    + destruct (String.ltb (ConfigurationName c0) (ConfigurationName p0)).
      * destruct (Z.eqb_spec (Percent c0) 0) as [Hz|Hz]; simpl in Hm.
        -- destruct Hc as [<-|Hc]; [contradiction|]. eapply IH; eauto.
        -- apply In_option_cons in Hm. destruct Hm as (rest & Hm & ->).
           destruct Hc as [<-|Hc]; [left; reflexivity|].
           right. eapply IH; eauto.
      * eapply IHp; eauto.
Qed.

(** X13.  The intersect loop of [Step], on configurations of one tag that
    are sorted by name.  When the loop returns, a configuration of [cur]
    whose name is also in [prev] was stepped from the configuration of
    that name if it has more than 1%, and copied if it has 1%; a
    configuration whose name is not in [prev] was copied if its
    percentage is not 0. *)
Theorem mergeConfigs_sorted (nowTS : Z)
    (ccfgs pcfgs out : list ConfigurationRollout) :
  StronglySorted nameBefore ccfgs ->
  StronglySorted nameBefore pcfgs ->
  mergeConfigs nowTS ccfgs pcfgs = Some out ->
  forall c, In c ccfgs ->
    (forall p, In p pcfgs ->
       ConfigurationName c = ConfigurationName p ->
       (1 < Percent c ->
        exists r, stepConfig c p nowTS = Some r /\ In r out) /\
       (Percent c = 1 -> In c out)) /\
    ((forall p, In p pcfgs -> ConfigurationName c <> ConfigurationName p) ->
     Percent c <> 0 -> In c out).
Proof.
  intros Hsc Hsp Hm c Hc. split.
  - intros p Hp Hn.
    exact (mergeConfigs_pairs nowTS ccfgs Hsc pcfgs out Hsp Hm c p Hc Hp Hn).
  - intros Hnew Hp.
    exact (mergeConfigs_new nowTS ccfgs pcfgs out Hm c Hc Hnew Hp).
Qed.

Lemma mergeConfigs_sorted_witness :
  let a := target "a" "" 1 [revision "r" 1] in
  let b := target "b" "" 99 [revision "r2" 99] in
  let pb := target "b" "" 99 [revision "r1" 99] in
  let out := [a; mkConfigurationRollout "b" "" 99
                   [revision "r1" 98; revision "r2" 1] 0 5 0 0 0] in
  In a out.
Proof.
  cbv zeta.
  apply (mergeConfigs_sorted 5
           [target "a" "" 1 [revision "r" 1];
            target "b" "" 99 [revision "r2" 99]]
           [target "b" "" 99 [revision "r1" 99]]
           [target "a" "" 1 [revision "r" 1];
            mkConfigurationRollout "b" "" 99
              [revision "r1" 98; revision "r2" 1] 0 5 0 0 0]).
  - repeat constructor.
  - repeat constructor.
  - reflexivity.
  - left. reflexivity.
  - intros p [<-|[]]. discriminate.
  - discriminate.
Defined.

(** ** Observation of the first step *)

Lemma observe_frame (nowTS : Z) (c : ConfigurationRollout) :
  sameButCadence c (observe nowTS c) /\
  (StepDuration c <> 0 \/ StartTime c <= 0 -> observe nowTS c = c).
Proof.
  unfold observe.
  destruct (Z.eqb_spec (StepDuration c) 0) as [Hd|Hd];
    destruct (Z.gtb_spec (StartTime c) 0) as [Hs|Hs]; cbn [andb].
  - split; [repeat split|]. intros [H|H]; [contradiction|lia].
  - split; [repeat split|reflexivity].
  - split; [repeat split|reflexivity].
  - split; [repeat split|reflexivity].
Qed.

(** X16.  [ObserveReady] changes the cadence only: the name, tag,
    percentage, revisions, deadline and start time of every
    configuration stay, a configuration with a [StepDuration] or without
    a positive [StartTime] is left as it is, and [Validate] answers the
    same before and after. *)
Theorem ObserveReady_frame (cur : Rollout) (nowTS : Z) :
  Forall2
    (fun c c' =>
       sameButCadence c c' /\
       (StepDuration c <> 0 \/ StartTime c <= 0 -> c' = c))
    (Configurations cur) (Configurations (ObserveReady cur nowTS)) /\
  Validate (ObserveReady cur nowTS) = Validate cur.
Proof.
  unfold ObserveReady, Validate. cbn [Configurations].
  induction (Configurations cur) as [|c tl [IH1 IH2]]; simpl.
  - split; [constructor|reflexivity].
  - destruct (observe_frame nowTS c) as [(H1 & H2 & H3 & H4 & H5 & H6) Hsame].
    split.
    + constructor; [|assumption]. split; [repeat split; assumption|assumption].
    + rewrite H3, H4, IH2. reflexivity.
Qed.

Lemma cadence_table :
  forallb (fun p => forallb (cadenceOk p) (range 1 120)) (range 2 99) = true.
Proof. vm_compute. reflexivity. Qed.

Lemma In_range (a n : nat) (z : Z) :
  Z.of_nat a <= z < Z.of_nat a + Z.of_nat n -> In z (range a n).
Proof.
  intros H. unfold range. apply in_map_iff. exists (Z.to_nat z).
  split; [lia|]. apply in_seq. lia.
Qed.

Lemma cadence_of (cur : ConfigurationRollout) (nowTS : float64) (k : Z) :
  cadence (Percent cur) k =
  (StepSize (computeProperties cur nowTS (ofInt k) durationSecs),
   StepDuration (computeProperties cur nowTS (ofInt k) durationSecs)).
Proof. reflexivity. Qed.

(** One cell of the table, for the configuration at hand. *)
Lemma cadence_cell (cur : ConfigurationRollout) (nowTS : float64) (k : Z) :
  2 <= Percent cur <= 100 ->
  1 <= k <= 120 ->
  let r := computeProperties cur nowTS (ofInt k) durationSecs in
  let ss := StepSize r in
  let sd := StepDuration r in
  (0 <=? ss) && (ss <=? Percent cur - 1) && (k <=? sd) && (sd <=? 120) &&
  (Bool.eqb (ss =? 0)
     (((Percent cur - 1) * k <? 120) && (120 <=? Percent cur * k))) &&
  ((Percent cur * k <? 120) || (sd <=? k + 1)) &&
  ((120 <=? Percent cur * k)
   || ((ss =? 1) && (sd =? (120 + Percent cur - 2) / (Percent cur - 1)))) &&
  ((ss =? 0) || (120 <=? ((Percent cur - 1 + ss - 1) / ss) * sd)) = true.
Proof.
  intros Hp Hk r ss sd.
  pose proof cadence_table as T.
  rewrite forallb_forall in T.
  specialize (T (Percent cur) (In_range 2 99 (Percent cur) ltac:(lia))).
  rewrite forallb_forall in T.
  specialize (T k (In_range 1 120 k ltac:(lia))).
  unfold cadenceOk in T. rewrite (cadence_of cur nowTS k) in T.
  exact T.
Qed.

(** X18.  The cadence that [computeProperties] stores for the default
    duration of 120 seconds, a target between 2% and 100% and a minimal
    step of [k] whole seconds, [k] from 1 to 120.  The step size is
    between 0 and [Percent - 1] and the step duration between [k] and
    120.  The step size is 0, so that no step moves traffic, exactly
    when [(Percent - 1) * k < 120 <= Percent * k].  When no more steps
    of [k] seconds fit than there are percents, [120 <= Percent * k],
    the duration is [k] or [k + 1]; otherwise each step is 1% and lasts
    [120 / (Percent - 1)] seconds, rounded up.  With a step size other than 0, the steps it
    takes to move [Percent - 1] last 120 seconds or more. *)
Theorem computeProperties_cadence (cur : ConfigurationRollout)
    (nowTS : float64) (k : Z) :
  2 <= Percent cur <= 100 ->
  1 <= k <= 120 ->
  let r := computeProperties cur nowTS (ofInt k) durationSecs in
  0 <= StepSize r <= Percent cur - 1 /\
  k <= StepDuration r <= 120 /\
  (StepSize r = 0 <-> (Percent cur - 1) * k < 120 <= Percent cur * k) /\
  (120 <= Percent cur * k -> StepDuration r <= k + 1) /\
  (Percent cur * k < 120 ->
   StepSize r = 1 /\
   StepDuration r = (120 + Percent cur - 2) / (Percent cur - 1)) /\
  (StepSize r <> 0 ->
   120 <= ((Percent cur - 1 + StepSize r - 1) / StepSize r) * StepDuration r).
Proof.
  intros Hp Hk r.
  pose proof (cadence_cell cur nowTS k Hp Hk) as T. cbv zeta in T.
  fold r in T.
  set (ss := StepSize r) in *. set (sd := StepDuration r) in *.
  clearbody ss sd. clear r.
  rewrite !andb_true_iff, !orb_true_iff in T.
  destruct T as (((((((T1 & T2) & T3) & T4) & T5) & T6) & T8) & T7).
  apply Z.leb_le in T1, T2, T3, T4.
  apply Bool.eqb_prop in T5.
  repeat split; lia.
Qed.

Lemma computeProperties_cadence_witness :
  let r := computeProperties
             (target "c" "" 100 [revision "r1" 99; revision "r2" 1])
             (ofInt 1000) (ofInt 5) durationSecs in
  0 <= StepSize r <= 99 /\ 5 <= StepDuration r <= 120.
Proof.
  cbv zeta.
  destruct (computeProperties_cadence
              (target "c" "" 100 [revision "r1" 99; revision "r2" 1])
              (ofInt 1000) 5) as (H1 & H2 & _).
  - simpl. lia.
  - lia.
  - split; assumption.
Defined.

Lemma observe_twice (nowTS nowTS' : Z) (c : ConfigurationRollout) :
  (StepDuration c = 0 -> 0 < StartTime c -> observedInTime nowTS c) ->
  observe nowTS' (observe nowTS c) = observe nowTS c.
Proof.
  intros H. unfold observe at 2 3.
  destruct (Z.eqb_spec (StepDuration c) 0) as [Hd|Hd];
    destruct (Z.gtb_spec (StartTime c) 0) as [Hs|Hs]; cbn [andb].
  - destruct (H Hd Hs) as (Hp & k & Hk & Ek).
    rewrite (minStepSecOf_whole nowTS (StartTime c) k) by (cbn; lia || assumption).
    pose proof (cadence_cell c (ofInt nowTS) k Hp Hk) as T. cbv zeta in T.
    set (r := computeProperties c (ofInt nowTS) (ofInt k) durationSecs) in *.
    unfold observe.
    destruct (Z.eqb_spec (StepDuration r) 0) as [Hz|Hz]; [|reflexivity].
    rewrite Hz in T.
    rewrite !andb_true_iff in T.
    destruct T as (((((((_ & _) & T3) & _) & _) & _) & _) & _).
    apply Z.leb_le in T3. lia.
  - unfold observe.
    destruct (Z.eqb_spec (StepDuration c) 0); [|lia].
    destruct (Z.gtb_spec (StartTime c) 0); [lia|]. reflexivity.
  - unfold observe.
    destruct (Z.eqb_spec (StepDuration c) 0); [lia|]. reflexivity.
  - unfold observe.
    destruct (Z.eqb_spec (StepDuration c) 0); [lia|]. reflexivity.
Qed.

(** X17.  The cadence is computed once.  When the configurations that
    [ObserveReady] takes up are between 2% and 100% and are observed a
    whole number of seconds, from 1 to 120, after their start, a second
    [ObserveReady], at any time, changes nothing. *)
Theorem ObserveReady_idempotent (cur : Rollout) (nowTS nowTS' : Z) :
  Forall (fun c => StepDuration c = 0 -> 0 < StartTime c ->
                   observedInTime nowTS c)
         (Configurations cur) ->
  ObserveReady (ObserveReady cur nowTS) nowTS' = ObserveReady cur nowTS.
Proof.
  intros H. unfold ObserveReady. cbn [Configurations]. f_equal.
  rewrite map_map. apply map_ext_in. intros c Hin.
  rewrite Forall_forall in H. apply observe_twice. apply H. assumption.
Qed.

Lemma ObserveReady_idempotent_witness :
  let cur :=
    mkRollout
      [mkConfigurationRollout "c" "" 100 [revision "a" 99; revision "b" 1]
         0 (1 * Second) 0 0 0] in
  ObserveReady (ObserveReady cur (6 * Second)) (9 * Second)
  = ObserveReady cur (6 * Second).
Proof.
  cbv zeta. apply ObserveReady_idempotent.
  constructor; [|constructor].
  intros _ _. split; [simpl; lia|].
  exists 5. split; [lia|reflexivity].
Defined.
